(** * cppsqlite: a C++ wrapper for the sqlite3 library

    A shallow embedding of the two copies of [cppsqlite.h] of the repository:

    - [Main]   embeds [headers/cppsqlite.h] (zero-based [bind], 64-bit
               [bind], [getBlob], [lastRowId], transaction helpers);
    - [Legacy] embeds [cppsqlite/headers/cppsqlite.h], the earlier copy
               ([bind] passes its index through, [data], [rowid]).

    The wrapper is a thin layer over the C interface of sqlite3.  The engine
    is not part of the repository, so a method is embedded as a program that
    issues native calls and continues with whatever the engine answers; the
    engine itself is a parameter (class [sqlite3_engine]).  Running a method
    against an engine yields the list of native calls in the order they were
    made, the outcome (normal return, thrown exception, failed assertion,
    undefined behaviour) and the object's fields afterwards. *)

From Stdlib Require Import ZArith Ascii String List Bool Lia.
From Stdlib Require Import Sorting.Permutation.
Import ListNotations.

Local Open Scope string_scope.
Local Open Scope Z_scope.

(* ================================================================= *)
(** ** Machine integers and pointers *)

(** [int] is 32 bits wide, two's complement. *)
Definition INT_MAX : Z := 2147483647.

Definition wrap_int (z : Z) : Z := (z + 2 ^ 31) mod 2 ^ 32 - 2 ^ 31.

(** [++index] on an [int]. *)
Definition incr_int (index : Z) : Z := wrap_int (index + 1).

(** [std::string::size()] handed to a parameter of type [int]. *)
Definition int_of_size (s : string) : Z := wrap_int (Z.of_nat (String.length s)).

(** An opaque native pointer ([sqlite3*], [sqlite3_stmt*]); address 0 is
    [nullptr]. *)
Definition addr := Z.
Definition nullptr : addr := 0.
Definition is_null (p : addr) : bool := p =? nullptr.

(** A [const char*] handed back by the engine: [None] is the null pointer,
    [Some buf] points at the readable bytes [buf] (for a C string, the bytes
    before the terminating NUL). *)
Definition char_ptr := option string.

(* ================================================================= *)
(** ** The native interface the wrapper calls (sqlite3.h) *)

(** The destructor argument of [sqlite3_bind_text]. *)
Inductive text_destructor := SQLITE_STATIC | SQLITE_TRANSIENT.

Inductive native : Type :=
| sqlite3_open (fileName : string)
| sqlite3_close (db : addr)
| sqlite3_errmsg (db : addr)
| sqlite3_exec (db : addr) (sql : string)
| sqlite3_last_insert_rowid (db : addr)
| sqlite3_prepare_v2 (db : addr) (sql : string) (nByte : Z)
| sqlite3_finalize (stmt : addr)
| sqlite3_db_handle (stmt : addr)
| sqlite3_bind_int (stmt : addr) (index : Z) (value : Z)
| sqlite3_bind_int64 (stmt : addr) (index : Z) (value : Z)
| sqlite3_bind_text (stmt : addr) (index : Z) (value : string) (n : Z)
                    (d : text_destructor)
| sqlite3_step (stmt : addr)
| sqlite3_reset (stmt : addr)
| sqlite3_column_int (stmt : addr) (column : Z)
| sqlite3_column_int64 (stmt : addr) (column : Z)
| sqlite3_column_text (stmt : addr) (column : Z)
| sqlite3_column_bytes (stmt : addr) (column : Z)
| sqlite3_column_blob (stmt : addr) (column : Z).

(** What each call hands back: its return value, paired with the value it
    stores through its out-parameter for [sqlite3_open] ([*ppDb]) and
    [sqlite3_prepare_v2] ([*ppStmt]). *)
Definition response (c : native) : Type :=
  match c with
  | sqlite3_open _ => (Z * addr)%type
  | sqlite3_close _ => Z
  | sqlite3_errmsg _ => string
  | sqlite3_exec _ _ => Z
  | sqlite3_last_insert_rowid _ => Z
  | sqlite3_prepare_v2 _ _ _ => (Z * addr)%type
  | sqlite3_finalize _ => Z
  | sqlite3_db_handle _ => addr
  | sqlite3_bind_int _ _ _ => Z
  | sqlite3_bind_int64 _ _ _ => Z
  | sqlite3_bind_text _ _ _ _ _ => Z
  | sqlite3_step _ => Z
  | sqlite3_reset _ => Z
  | sqlite3_column_int _ _ => Z
  | sqlite3_column_int64 _ _ => Z
  | sqlite3_column_text _ _ => char_ptr
  | sqlite3_column_bytes _ _ => Z
  | sqlite3_column_blob _ _ => char_ptr
  end.

(** The result codes the wrapper compares against.  Their values are fixed
    by sqlite3.h, which the repository does not contain, so they are
    parameters. *)
Class sqlite3_h : Type := {
  SQLITE_OK : Z;
  SQLITE_ROW : Z;
  SQLITE_DONE : Z
}.

(** An engine: some state, and an answer to every native call. *)
Class sqlite3_engine : Type := {
  world : Type;
  respond : forall c : native, world -> response c * world
}.

Definition is_bind_call (c : native) : bool :=
  match c with
  | sqlite3_bind_int _ _ _ | sqlite3_bind_int64 _ _ _
  | sqlite3_bind_text _ _ _ _ _ => true
  | _ => false
  end.

Definition is_close_of (p : addr) (c : native) : bool :=
  match c with
  | sqlite3_close db => db =? p
  | _ => false
  end.

Definition is_finalize_of (p : addr) (c : native) : bool :=
  match c with
  | sqlite3_finalize stmt => stmt =? p
  | _ => false
  end.

(* ================================================================= *)
(** ** Programs over native calls *)

Inductive prog (A : Type) : Type :=
| Ret (a : A)
| Call (c : native) (k : response c -> prog A).
Arguments Ret {A} a.
Arguments Call {A} c k.

Fixpoint prog_bind {A B} (p : prog A) (f : A -> prog B) : prog B :=
  match p with
  | Ret a => f a
  | Call c k => Call c (fun x => prog_bind (k x) f)
  end.

(** A finished run: the native calls in the order they were made, the
    engine's state afterwards and what the program yields. *)
Record run (W A : Type) : Type := mkRun {
  calls : list native;
  after : W;
  yield : A
}.
Arguments mkRun {W A} calls after yield.
Arguments calls {W A} r.
Arguments after {W A} r.
Arguments yield {W A} r.

Fixpoint exec {E : sqlite3_engine} {A} (p : prog A) (w : world) : run world A :=
  match p with
  | Ret a => mkRun [] w a
  | Call c k =>
      let '(x, w1) := respond c w in
      let r := exec (k x) w1 in
      mkRun (c :: calls r) (after r) (yield r)
  end.

(* ================================================================= *)
(** ** Member functions: fields, exceptions, assertions *)

(** How a member function ends.  [X] is the type of the exception thrown
    ([SqlException]).  [AssertFailed] is [assert] aborting the process (no
    unwinding); [Undefined] is undefined behaviour (reading through a null
    pointer or past the end of a buffer). *)
Inductive outcome (X A : Type) : Type :=
| Normal (a : A)
| Thrown (e : X)
| AssertFailed
| Undefined.
Arguments Normal {X A} a.
Arguments Thrown {X A} e.
Arguments AssertFailed {X A}.
Arguments Undefined {X A}.

(** A member function of an object with fields [S]. *)
Definition method (X S A : Type) : Type := S -> prog (outcome X A * S).

Definition mret {X S A} (a : A) : method X S A :=
  fun self => Ret (Normal a, self).

Definition mbind {X S A B} (m : method X S A) (f : A -> method X S B)
  : method X S B :=
  fun self =>
    prog_bind (m self) (fun r =>
      match fst r with
      | Normal a => f a (snd r)
      | Thrown e => Ret (Thrown e, snd r)
      | AssertFailed => Ret (AssertFailed, snd r)
      | Undefined => Ret (Undefined, snd r)
      end).

Definition call {X S} (c : native) : method X S (response c) :=
  fun self => Call c (fun x => Ret (Normal x, self)).

Definition throw {X S A} (e : X) : method X S A :=
  fun self => Ret (Thrown e, self).

Definition assert {X S} (b : bool) : method X S unit :=
  fun self => if b then Ret (Normal tt, self) else Ret (AssertFailed, self).

Definition undefined {X S A} : method X S A :=
  fun self => Ret (Undefined, self).

Definition this {X S} : method X S S :=
  fun self => Ret (Normal self, self).

Definition assign {X S} (self' : S) : method X S unit :=
  fun _ => Ret (Normal tt, self').

Declare Scope method_scope.
Delimit Scope method_scope with method.
Notation "x <- m ;; k" := (mbind m (fun x => k))
  (at level 61, m at next level, right associativity) : method_scope.
Notation "' p <- m ;; k" := (mbind m (fun x => let 'p := x in k))
  (at level 61, p pattern, m at next level, right associativity) : method_scope.
Notation "m ;; k" := (mbind m (fun _ => k))
  (at level 61, right associativity) : method_scope.

(** Running a member function on an object. *)
Definition invoke {E : sqlite3_engine} {X S A} (m : method X S A) (self : S)
  (w : world) : run world (outcome X A * S) :=
  exec (m self) w.

Definition returned {W X S A} (r : run W (outcome X A * S)) : outcome X A :=
  fst (yield r).
Definition object {W X S A} (r : run W (outcome X A * S)) : S :=
  snd (yield r).

(** A member function that leaves the fields of its object as they were,
    however it ends. *)
Definition keeps_fields {E : sqlite3_engine} {X S A} (m : method X S A) : Prop :=
  forall (self : S) (w : world), object (invoke m self w) = self.

(** [std::unique_ptr] with a function for deleter ([sqlite3_close],
    [sqlite3_finalize]): the deleter runs on a pointer that is not null, when
    the owner is destroyed or is assigned another pointer. *)
Definition unique_ptr_release {X S} (deleter : addr -> native) (p : addr)
  : method X S unit :=
  (if is_null p then mret tt else (_ <- call (deleter p) ;; mret tt))%method.

(** [std::string(const char* s)]. *)
Definition string_of_cstr {X S} (s : char_ptr) : method X S string :=
  match s with
  | Some text => mret text
  | None => undefined
  end.

(** [std::string(const char* s, size_t n)]: the first [n] bytes at [s]. *)
Definition string_of_data {X S} (s : char_ptr) (n : Z) : method X S string :=
  match s with
  | Some buf =>
      if (0 <=? n) && (n <=? Z.of_nat (String.length buf))
      then mret (substring 0 (Z.to_nat n) buf)
      else undefined
  | None => undefined
  end.

(* ================================================================= *)
(** ** headers/cppsqlite.h *)

Module Main.

Record SqlException : Type := {
  errorCode : Z;
  errorMessage : string
}.

Record Connection : Type := { m_db : addr }.

Record Statement : Type := { m_stmt : addr }.

Section Methods.
Context {H : sqlite3_h}.
Local Open Scope method_scope.

Local Abbreviation member := (method SqlException).

(** *** Connection *)

Definition Connection_new : Connection := {| m_db := nullptr |}.

Definition Connection_delete : member Connection unit :=
  self <- this ;;
  unique_ptr_release sqlite3_close (m_db self).

Definition open (fileName : string) : member Connection unit :=
  '(result, rawConnection) <- call (sqlite3_open fileName) ;;
  let localHandle := rawConnection in
  if negb (result =? SQLITE_OK) then
    msg <- call (sqlite3_errmsg localHandle) ;;
    (* unwinding destroys localHandle *)
    unique_ptr_release sqlite3_close localHandle ;;
    throw {| errorCode := result; errorMessage := msg |}
  else
    (* m_db = std::move(localHandle) *)
    self <- this ;;
    assign {| m_db := localHandle |} ;;
    unique_ptr_release sqlite3_close (m_db self).

Definition createInMemory : member Connection unit :=
  open ":memory:".

Definition execute (statement : string) : member Connection unit :=
  self <- this ;;
  assert (negb (is_null (m_db self))) ;;
  result <- call (sqlite3_exec (m_db self) statement) ;;
  if negb (result =? SQLITE_OK) then
    msg <- call (sqlite3_errmsg (m_db self)) ;;
    throw {| errorCode := result; errorMessage := msg |}
  else mret tt.

Definition ptr (self : Connection) : addr := m_db self.

Definition lastRowId : member Connection Z :=
  self <- this ;;
  call (sqlite3_last_insert_rowid (m_db self)).

Definition beginTransaction : member Connection unit := execute "BEGIN".
Definition rollbackTransaction : member Connection unit := execute "ROLLBACK".
Definition commitTransaction : member Connection unit := execute "COMMIT".

(** *** Statement *)

Definition Statement_new : Statement := {| m_stmt := nullptr |}.

Definition Statement_delete : member Statement unit :=
  self <- this ;;
  unique_ptr_release sqlite3_finalize (m_stmt self).

(** [throw SqlException(result, sqlite3_errmsg(sqlite3_db_handle(m_stmt.get())))] *)
Definition throw_from_statement {A} (result : Z) : member Statement A :=
  self <- this ;;
  db <- call (sqlite3_db_handle (m_stmt self)) ;;
  msg <- call (sqlite3_errmsg db) ;;
  throw {| errorCode := result; errorMessage := msg |}.

Definition prepare (connection : Connection) (statement : string)
  : member Statement unit :=
  '(result, rawStmt) <-
    call (sqlite3_prepare_v2 (ptr connection) statement (int_of_size statement)) ;;
  let localHandle := rawStmt in
  if negb (result =? SQLITE_OK) then
    msg <- call (sqlite3_errmsg (ptr connection)) ;;
    (* unwinding destroys localHandle *)
    unique_ptr_release sqlite3_finalize localHandle ;;
    throw {| errorCode := result; errorMessage := msg |}
  else
    (* m_stmt = std::move(localHandle) *)
    self <- this ;;
    assign {| m_stmt := localHandle |} ;;
    unique_ptr_release sqlite3_finalize (m_stmt self).

(** [bind(int index, const int value)] *)
Definition bind_int (index : Z) (value : Z) : member Statement unit :=
  self <- this ;;
  assert (negb (is_null (m_stmt self))) ;;
  let index := incr_int index in
  result <- call (sqlite3_bind_int (m_stmt self) index value) ;;
  if negb (result =? SQLITE_OK) then throw_from_statement result
  else mret tt.

(** [bind(int index, const long long int value)] *)
Definition bind_int64 (index : Z) (value : Z) : member Statement unit :=
  self <- this ;;
  assert (negb (is_null (m_stmt self))) ;;
  let index := incr_int index in
  result <- call (sqlite3_bind_int64 (m_stmt self) index value) ;;
  if negb (result =? SQLITE_OK) then throw_from_statement result
  else mret tt.

(** [bind(int index, const std::string& value)] *)
Definition bind_string (index : Z) (value : string) : member Statement unit :=
  self <- this ;;
  assert (negb (is_null (m_stmt self))) ;;
  let index := incr_int index in
  result <- call (sqlite3_bind_text (m_stmt self) index value
                    (int_of_size value) SQLITE_TRANSIENT) ;;
  if negb (result =? SQLITE_OK) then throw_from_statement result
  else mret tt.

Definition step : member Statement bool :=
  self <- this ;;
  assert (negb (is_null (m_stmt self))) ;;
  result <- call (sqlite3_step (m_stmt self)) ;;
  if result =? SQLITE_ROW then mret true
  else if result =? SQLITE_DONE then mret false
  else throw_from_statement result.

Definition reset : member Statement unit :=
  self <- this ;;
  result <- call (sqlite3_reset (m_stmt self)) ;;
  if negb (result =? SQLITE_OK) then throw_from_statement result
  else mret tt.

Definition getInt (column : Z) : member Statement Z :=
  self <- this ;;
  call (sqlite3_column_int (m_stmt self) column).

Definition getInt64 (column : Z) : member Statement Z :=
  self <- this ;;
  call (sqlite3_column_int64 (m_stmt self) column).

Definition getString (column : Z) : member Statement string :=
  self <- this ;;
  str <- call (sqlite3_column_text (m_stmt self) column) ;;
  match str with
  | Some _ => string_of_cstr str
  | None => mret EmptyString
  end.

Definition getBlob (column : Z) : member Statement string :=
  self <- this ;;
  dataSize <- call (sqlite3_column_bytes (m_stmt self) column) ;;
  data <- call (sqlite3_column_blob (m_stmt self) column) ;;
  match data with
  | Some _ => string_of_data data dataSize
  | None => mret EmptyString
  end.

End Methods.
End Main.

(* ================================================================= *)
(** ** cppsqlite/headers/cppsqlite.h *)

Module Legacy.

Record SqlException : Type := {
  error : Z;
  message : string
}.

Record Connection : Type := { m_db : addr }.

Record Statement : Type := { m_stmt : addr }.

Section Methods.
Context {H : sqlite3_h}.
Local Open Scope method_scope.

Local Abbreviation member := (method SqlException).

(** *** Connection *)

Definition Connection_new : Connection := {| m_db := nullptr |}.

Definition Connection_delete : member Connection unit :=
  self <- this ;;
  unique_ptr_release sqlite3_close (m_db self).

Definition open (fileName : string) : member Connection unit :=
  '(result, rawConnection) <- call (sqlite3_open fileName) ;;
  let localHandle := rawConnection in
  if negb (result =? SQLITE_OK) then
    msg <- call (sqlite3_errmsg localHandle) ;;
    unique_ptr_release sqlite3_close localHandle ;;
    throw {| error := result; message := msg |}
  else
    self <- this ;;
    assign {| m_db := localHandle |} ;;
    unique_ptr_release sqlite3_close (m_db self).

Definition createInMemory : member Connection unit :=
  open ":memory:".

Definition execute (statement : string) : member Connection unit :=
  self <- this ;;
  assert (negb (is_null (m_db self))) ;;
  result <- call (sqlite3_exec (m_db self) statement) ;;
  if negb (result =? SQLITE_OK) then
    msg <- call (sqlite3_errmsg (m_db self)) ;;
    throw {| error := result; message := msg |}
  else mret tt.

Definition data (self : Connection) : addr := m_db self.

Definition rowid : member Connection Z :=
  self <- this ;;
  call (sqlite3_last_insert_rowid (m_db self)).

(** *** Statement *)

Definition Statement_new : Statement := {| m_stmt := nullptr |}.

Definition Statement_delete : member Statement unit :=
  self <- this ;;
  unique_ptr_release sqlite3_finalize (m_stmt self).

Definition throw_from_statement {A} (result : Z) : member Statement A :=
  self <- this ;;
  db <- call (sqlite3_db_handle (m_stmt self)) ;;
  msg <- call (sqlite3_errmsg db) ;;
  throw {| error := result; message := msg |}.

Definition prepare (connection : Connection) (statement : string)
  : member Statement unit :=
  '(result, rawStmt) <-
    call (sqlite3_prepare_v2 (data connection) statement (int_of_size statement)) ;;
  let localHandle := rawStmt in
  if negb (result =? SQLITE_OK) then
    msg <- call (sqlite3_errmsg (data connection)) ;;
    unique_ptr_release sqlite3_finalize localHandle ;;
    throw {| error := result; message := msg |}
  else
    self <- this ;;
    assign {| m_stmt := localHandle |} ;;
    unique_ptr_release sqlite3_finalize (m_stmt self).

(** [bind(const int index, const int value)]: the index is handed on as it
    is. *)
Definition bind_int (index : Z) (value : Z) : member Statement unit :=
  self <- this ;;
  assert (negb (is_null (m_stmt self))) ;;
  result <- call (sqlite3_bind_int (m_stmt self) index value) ;;
  if negb (result =? SQLITE_OK) then throw_from_statement result
  else mret tt.

(** [bind(const int index, const std::string& value)] *)
Definition bind_string (index : Z) (value : string) : member Statement unit :=
  self <- this ;;
  assert (negb (is_null (m_stmt self))) ;;
  result <- call (sqlite3_bind_text (m_stmt self) index value
                    (int_of_size value) SQLITE_TRANSIENT) ;;
  if negb (result =? SQLITE_OK) then throw_from_statement result
  else mret tt.

Definition step : member Statement bool :=
  self <- this ;;
  assert (negb (is_null (m_stmt self))) ;;
  result <- call (sqlite3_step (m_stmt self)) ;;
  if result =? SQLITE_ROW then mret true
  else if result =? SQLITE_DONE then mret false
  else throw_from_statement result.

Definition reset : member Statement unit :=
  self <- this ;;
  result <- call (sqlite3_reset (m_stmt self)) ;;
  if negb (result =? SQLITE_OK) then throw_from_statement result
  else mret tt.

Definition getInt (column : Z) : member Statement Z :=
  self <- this ;;
  call (sqlite3_column_int (m_stmt self) column).

Definition getInt64 (column : Z) : member Statement Z :=
  self <- this ;;
  call (sqlite3_column_int64 (m_stmt self) column).

Definition getString (column : Z) : member Statement string :=
  self <- this ;;
  str <- call (sqlite3_column_text (m_stmt self) column) ;;
  match str with
  | Some _ => string_of_cstr str
  | None => mret EmptyString
  end.

End Methods.
End Legacy.

(* ================================================================= *)
(** ** A small engine to run the wrapper against

    Result codes as sqlite3.h numbers them.  Opening [":memory:"] succeeds;
    opening anything else hands back a session handle together with
    SQLITE_CANTOPEN, as sqlite3 does.  SQL starting with an upper-case letter
    compiles; anything else is a syntax error with a null statement.  Every
    row has a null value in column 0 and the five bytes [alice] in
    column 1. *)

Module Mock.

#[export] Instance header : sqlite3_h := {|
  SQLITE_OK := 0;
  SQLITE_ROW := 100;
  SQLITE_DONE := 101
|}.

Definition SQLITE_ERROR : Z := 1.
Definition SQLITE_CANTOPEN : Z := 14.
Definition SQLITE_MISUSE : Z := 21.

Record state : Type := mkState {
  next : addr;            (* the next address handed out *)
  sessions : list addr;   (* sessions opened and not yet closed *)
  statements : list addr; (* statements compiled and not yet finalized *)
  rows : nat;             (* rows a stepped statement still yields *)
  errmsg : string         (* the last diagnostic message *)
}.

Definition fresh : state := mkState 1 [] [] 1 "not an error".

Definition drop (p : addr) (l : list addr) : list addr :=
  filter (fun q => negb (q =? p)) l.

Definition compiles (sql : string) : bool :=
  match sql with
  | String c _ => (Ascii.leb "A" c && Ascii.leb c "Z")%char
  | EmptyString => false
  end.

Definition answer (c : native) (w : state) : response c * state :=
  match c return response c * state with
  | sqlite3_open fileName =>
      let w1 := mkState (next w + 1) (next w :: sessions w) (statements w)
                        (rows w) in
      if String.eqb fileName ":memory:"
      then ((0, next w), w1 "not an error")
      else ((SQLITE_CANTOPEN, next w), w1 "unable to open database file")
  | sqlite3_close db =>
      (0, mkState (next w) (drop db (sessions w)) (statements w) (rows w)
                  (errmsg w))
  | sqlite3_errmsg db =>
      (if is_null db then "out of memory" else errmsg w, w)
  | sqlite3_exec db sql =>
      if compiles sql then (0, w)
      else (SQLITE_ERROR,
            mkState (next w) (sessions w) (statements w) (rows w) "syntax error")
  | sqlite3_last_insert_rowid db => (1, w)
  | sqlite3_prepare_v2 db sql nByte =>
      if compiles sql
      then ((0, next w),
            mkState (next w + 1) (sessions w) (next w :: statements w) (rows w)
                    "not an error")
      else ((SQLITE_ERROR, nullptr),
            mkState (next w) (sessions w) (statements w) (rows w) "syntax error")
  | sqlite3_finalize stmt =>
      (0, mkState (next w) (sessions w) (drop stmt (statements w)) (rows w)
                  (errmsg w))
  | sqlite3_db_handle stmt => (hd nullptr (sessions w), w)
  | sqlite3_bind_int stmt index value
  | sqlite3_bind_int64 stmt index value =>
      (if is_null stmt then SQLITE_MISUSE else 0, w)
  | sqlite3_bind_text stmt index value n d =>
      (if is_null stmt then SQLITE_MISUSE else 0, w)
  | sqlite3_step stmt =>
      if is_null stmt then (SQLITE_MISUSE, w)
      else match rows w with
           | O => (101, w)
           | S n => (100, mkState (next w) (sessions w) (statements w) n
                                  (errmsg w))
           end
  | sqlite3_reset stmt => (0, w)
  | sqlite3_column_int stmt column => (0, w)
  | sqlite3_column_int64 stmt column => (0, w)
  | sqlite3_column_text stmt column =>
      (if column =? 1 then Some "alice" else None, w)
  | sqlite3_column_bytes stmt column =>
      (if column =? 1 then 5 else 0, w)
  | sqlite3_column_blob stmt column =>
      (if column =? 1 then Some "alice" else None, w)
  end.

#[export] Instance engine : sqlite3_engine := {|
  world := state;
  respond := answer
|}.

End Mock.

(** The wrapper at work on that engine: an in-memory session, then a
    statement compiled on it. *)
Module Scenario.
Import Mock.

Definition sql : string := "SELECT name FROM t WHERE id = ?".

Definition connected : run world (outcome Main.SqlException unit * Main.Connection) :=
  invoke Main.createInMemory Main.Connection_new fresh.

Definition compiled : run world (outcome Main.SqlException unit * Main.Statement) :=
  invoke (Main.prepare (object connected) sql) Main.Statement_new
         (after connected).

(** One [step] on it: the statement is positioned on its row. *)
Definition on_row : run world (outcome Main.SqlException bool * Main.Statement) :=
  invoke Main.step (object compiled) (after compiled).

(** A path that cannot be opened, and text that does not compile. *)
Definition missing : string := "/no/such/dir/t.db".
Definition garbled : string := "select".
Definition insertion : string := "INSERT INTO t (name) VALUES (?)".
Definition creation : string :=
  "CREATE TABLE t (id INTEGER PRIMARY KEY, name TEXT)".

(** The same with the earlier copy of the header. *)
Definition legacy_connected
  : run world (outcome Legacy.SqlException unit * Legacy.Connection) :=
  invoke Legacy.createInMemory Legacy.Connection_new fresh.

Definition legacy_compiled
  : run world (outcome Legacy.SqlException unit * Legacy.Statement) :=
  invoke (Legacy.prepare (object legacy_connected) sql) Legacy.Statement_new
         (after legacy_connected).

End Scenario.

(* ================================================================= *)
(** ** Stores and native calls, step by step

    A run as above tells the native calls and the fields at the end, not
    when, between the calls, a field was assigned.  To tell that, the object
    is given a journal beside its fields: every native call and every store
    to the handle field is noted there as it happens.  [prepare] is written
    out once more over such an object, statement by statement as above;
    [std::unique_ptr]'s move assignment first stores the new pointer and
    then runs the deleter on the old one. *)

Inductive action : Type :=
| Calls (c : native)   (* a native call is made *)
| Stores (p : addr).   (* the handle field is assigned [p] *)

Definition native_calls (journal : list action) : list native :=
  flat_map (fun a => match a with Calls c => [c] | Stores _ => [] end) journal.

Definition noted {X S} (a : action) : method X (S * list action) unit :=
  fun self => Ret (Normal tt, (fst self, (snd self ++ [a])%list)).

Definition calling {X S} (c : native)
  : method X (S * list action) (response c) :=
  (_ <- noted (Calls c) ;; call c)%method.

Definition storing {X S} (make : addr -> S) (p : addr)
  : method X (S * list action) unit :=
  fun self => Ret (Normal tt, (make p, (snd self ++ [Stores p])%list)).

Definition fields {X S} : method X (S * list action) S :=
  fun self => Ret (Normal (fst self), self).

Definition unique_ptr_releasing {X S} (deleter : addr -> native) (p : addr)
  : method X (S * list action) unit :=
  (if is_null p then mret tt else (_ <- calling (deleter p) ;; mret tt))%method.

Module MainSteps.
Section Methods.
Context {H : sqlite3_h}.
Local Open Scope method_scope.

(** [Statement::prepare] of headers/cppsqlite.h. *)
Definition prepare (connection : Main.Connection) (statement : string)
  : method Main.SqlException (Main.Statement * list action) unit :=
  '(result, rawStmt) <-
    calling (sqlite3_prepare_v2 (Main.ptr connection) statement
                                (int_of_size statement)) ;;
  let localHandle := rawStmt in
  if negb (result =? SQLITE_OK) then
    msg <- calling (sqlite3_errmsg (Main.ptr connection)) ;;
    (* unwinding destroys localHandle *)
    unique_ptr_releasing sqlite3_finalize localHandle ;;
    throw {| Main.errorCode := result; Main.errorMessage := msg |}
  else
    (* m_stmt = std::move(localHandle) *)
    self <- fields ;;
    storing Main.Build_Statement localHandle ;;
    unique_ptr_releasing sqlite3_finalize (Main.m_stmt self).

End Methods.
End MainSteps.

Module LegacySteps.
Section Methods.
Context {H : sqlite3_h}.
Local Open Scope method_scope.

(** [Statement::prepare] of cppsqlite/headers/cppsqlite.h. *)
Definition prepare (connection : Legacy.Connection) (statement : string)
  : method Legacy.SqlException (Legacy.Statement * list action) unit :=
  '(result, rawStmt) <-
    calling (sqlite3_prepare_v2 (Legacy.data connection) statement
                                (int_of_size statement)) ;;
  let localHandle := rawStmt in
  if negb (result =? SQLITE_OK) then
    msg <- calling (sqlite3_errmsg (Legacy.data connection)) ;;
    unique_ptr_releasing sqlite3_finalize localHandle ;;
    throw {| Legacy.error := result; Legacy.message := msg |}
  else
    self <- fields ;;
    storing Legacy.Build_Statement localHandle ;;
    unique_ptr_releasing sqlite3_finalize (Legacy.m_stmt self).

End Methods.
End LegacySteps.

(** An engine that differs from the small one in one answer: when SQL text
    does not compile, [sqlite3_prepare_v2] still hands back a statement
    handle, which the caller has to finalize. *)
Module Halfway.

Definition answer (c : native) (w : Mock.state)
  : response c * Mock.state :=
  match c return response c * Mock.state with
  | sqlite3_prepare_v2 db sql nByte =>
      if Mock.compiles sql
      then Mock.answer (sqlite3_prepare_v2 db sql nByte) w
      else ((Mock.SQLITE_ERROR, Mock.next w),
            Mock.mkState (Mock.next w + 1) (Mock.sessions w)
                         (Mock.next w :: Mock.statements w) (Mock.rows w)
                         "syntax error")
  | c' => Mock.answer c' w
  end.

Definition engine : sqlite3_engine := {|
  world := Mock.state;
  respond := answer
|}.

End Halfway.

(* ================================================================= *)
(** ** What a run did to the engine's handles *)

(** A native call together with what the engine answered. *)
Inductive event : Type :=
| Answered (c : native) (x : response c).

Definition asked (e : event) : native :=
  match e with Answered c _ => c end.

(** The calls of a run with their answers, in order. *)
Fixpoint trace {E : sqlite3_engine} {A} (p : prog A) (w : world) : list event :=
  match p with
  | Ret _ => []
  | Call c k =>
      let '(x, w1) := respond c w in
      Answered c x :: trace (k x) w1
  end.

Definition history {E : sqlite3_engine} {X S A} (m : method X S A) (self : S)
  (w : world) : list event :=
  trace (m self) w.

(** The handle an owner holds, if any. *)
Definition nonnull (p : addr) : list addr :=
  if is_null p then [] else [p].

(** Session handles the engine handed out ([*ppDb] of [sqlite3_open]) and
    session handles [sqlite3_close] was called on. *)
Definition session_opened (e : event) : list addr :=
  match e with
  | Answered c x =>
      match c return response c -> list addr with
      | sqlite3_open _ => fun x => nonnull (snd x)
      | _ => fun _ => []
      end x
  end.

Definition session_closed (e : event) : list addr :=
  match asked e with
  | sqlite3_close db => [db]
  | _ => []
  end.

(** Statement handles the engine handed out ([*ppStmt] of
    [sqlite3_prepare_v2]) and statement handles [sqlite3_finalize] was called
    on. *)
Definition statement_compiled (e : event) : list addr :=
  match e with
  | Answered c x =>
      match c return response c -> list addr with
      | sqlite3_prepare_v2 _ _ _ => fun x => nonnull (snd x)
      | _ => fun _ => []
      end x
  end.

Definition statement_finalized (e : event) : list addr :=
  match asked e with
  | sqlite3_finalize stmt => [stmt]
  | _ => []
  end.

(** The calls that create or release a handle. *)
Definition is_lifecycle_call (c : native) : bool :=
  match c with
  | sqlite3_open _ | sqlite3_close _
  | sqlite3_prepare_v2 _ _ _ | sqlite3_finalize _ => true
  | _ => false
  end.

(** A member function that makes none of them. *)
Definition keeps_handles {E : sqlite3_engine} {X S A} (m : method X S A)
  : Prop :=
  forall (self : S) (w : world),
    forallb (fun c => negb (is_lifecycle_call c)) (calls (invoke m self w)) = true.

(** What [bind] and [reset] make of the answer [a] to their native call [c]
    on the statement [stmt]: a normal return on SQLITE_OK after that one
    call; otherwise an exception, built by [mk] from the answer and from the
    message [sqlite3_errmsg] gives for [sqlite3_db_handle(stmt)]. *)
Definition translates {H : sqlite3_h} {E : sqlite3_engine} {X S}
  (mk : Z -> string -> X) (stmt : addr) (c : native) (a : Z * world)
  (r : run world (outcome X unit * S)) : Prop :=
  let h := respond (sqlite3_db_handle stmt) (snd a) in
  let m := respond (sqlite3_errmsg (fst h)) (snd h) in
  (fst a = SQLITE_OK -> returned r = Normal tt /\ calls r = [c]) /\
  (fst a <> SQLITE_OK ->
   returned r = Thrown (mk (fst a) (fst m)) /\
   calls r = [c; sqlite3_db_handle stmt; sqlite3_errmsg (fst h)]).

(** A member function that checks the handle first: the run [r] from the
    engine state [w] ends in the failed assertion exactly when [handle] is
    null, and then no native call was made and the engine is as it was. *)
Definition asserts_handle {E : sqlite3_engine} {X S A}
  (handle : addr) (w : world) (r : run world (outcome X A * S)) : Prop :=
  (returned r = AssertFailed <-> handle = nullptr) /\
  (handle = nullptr -> calls r = [] /\ after r = w).

(** The account of handles across one call of [m]: the handles released
    during the call, with the ones the object holds afterwards, are the ones
    it held before with the ones the engine handed out during the call. *)
Definition balanced {E : sqlite3_engine} {X S A}
  (handed_out released : event -> list addr) (held : S -> list addr)
  (m : method X S A) : Prop :=
  forall (self : S) (w : world),
    Permutation
      (flat_map released (history m self w) ++ held (object (invoke m self w)))
      (held self ++ flat_map handed_out (history m self w)).

(** How a call ended, without the value returned. *)
Definition ending {X A} (o : outcome X A) : outcome X unit :=
  match o with
  | Normal _ => Normal tt
  | Thrown e => Thrown e
  | AssertFailed => AssertFailed
  | Undefined => Undefined
  end.

Definition ended {X S A} (m : method X S A) : method X S unit :=
  fun self => prog_bind (m self) (fun r => Ret (ending (fst r), snd r)).

(** The process goes on after a return and after an exception (which the
    caller may catch); a failed assertion or undefined behaviour ends it. *)
Definition goes_on {X A} (o : outcome X A) : bool :=
  match o with
  | Normal _ | Thrown _ => true
  | AssertFailed | Undefined => false
  end.

(** Any use of an object of headers/cppsqlite.h: member function calls one
    after the other, until the list is exhausted or the process has ended.
    The result tells whether the process still runs, and the object. *)
Fixpoint use {X S} (ms : list (method X S unit)) (self : S)
  : prog (bool * S) :=
  match ms with
  | [] => Ret (true, self)
  | m :: ms' =>
      prog_bind (m self) (fun r =>
        if goes_on (fst r) then use ms' (snd r) else Ret (false, snd r))
  end.

(** The object's life: it is used, then destroyed if the process still
    runs. *)
Definition lifetime {X S} (ms : list (method X S unit))
  (delete : method X S unit) (self : S) : prog (bool * S) :=
  prog_bind (use ms self) (fun r =>
    if fst r
    then prog_bind (delete (snd r)) (fun d => Ret (true, snd d))
    else Ret r).

Module Usage.

(** One call on a [Connection] of headers/cppsqlite.h. *)
Inductive on_connection : Type :=
| call_open (fileName : string)
| call_createInMemory
| call_execute (statement : string)
| call_lastRowId
| call_beginTransaction
| call_rollbackTransaction
| call_commitTransaction.

Definition connection_call {H : sqlite3_h} (u : on_connection)
  : method Main.SqlException Main.Connection unit :=
  match u with
  | call_open fileName => ended (Main.open fileName)
  | call_createInMemory => ended Main.createInMemory
  | call_execute statement => ended (Main.execute statement)
  | call_lastRowId => ended Main.lastRowId
  | call_beginTransaction => ended Main.beginTransaction
  | call_rollbackTransaction => ended Main.rollbackTransaction
  | call_commitTransaction => ended Main.commitTransaction
  end.

(** One call on a [Statement] of headers/cppsqlite.h. *)
Inductive on_statement : Type :=
| call_prepare (connection : Main.Connection) (statement : string)
| call_bind_int (index value : Z)
| call_bind_int64 (index value : Z)
| call_bind_string (index : Z) (value : string)
| call_step
| call_reset
| call_getInt (column : Z)
| call_getInt64 (column : Z)
| call_getString (column : Z)
| call_getBlob (column : Z).

Definition statement_call {H : sqlite3_h} (u : on_statement)
  : method Main.SqlException Main.Statement unit :=
  match u with
  | call_prepare connection statement =>
      ended (Main.prepare connection statement)
  | call_bind_int index value => ended (Main.bind_int index value)
  | call_bind_int64 index value => ended (Main.bind_int64 index value)
  | call_bind_string index value => ended (Main.bind_string index value)
  | call_step => ended Main.step
  | call_reset => ended Main.reset
  | call_getInt column => ended (Main.getInt column)
  | call_getInt64 column => ended (Main.getInt64 column)
  | call_getString column => ended (Main.getString column)
  | call_getBlob column => ended (Main.getBlob column)
  end.

End Usage.

(** Two lives on the small engine. *)
Module Lives.
Import Mock.

(** A connection that fails to open a file, opens two in-memory databases
    one after the other and works on them. *)
Definition connection_calls : list Usage.on_connection :=
  [ Usage.call_open Scenario.missing;
    Usage.call_createInMemory;
    Usage.call_execute Scenario.creation;
    Usage.call_beginTransaction;
    Usage.call_execute Scenario.garbled;
    Usage.call_rollbackTransaction;
    Usage.call_createInMemory;
    Usage.call_lastRowId ].

(** A statement compiled, run, read, reset, compiled again, and then given
    text that does not compile. *)
Definition statement_calls : list Usage.on_statement :=
  [ Usage.call_prepare (object Scenario.connected) Scenario.sql;
    Usage.call_bind_int 0 1;
    Usage.call_step;
    Usage.call_getString 0;
    Usage.call_getBlob 1;
    Usage.call_reset;
    Usage.call_prepare (object Scenario.connected) Scenario.insertion;
    Usage.call_bind_string 0 "alice";
    Usage.call_step;
    Usage.call_prepare (object Scenario.connected) Scenario.garbled ].

End Lives.

(* ================================================================= *)
(** ** Running programs: general facts *)

Section Running.
Context {E : sqlite3_engine}.

Lemma exec_prog_bind {A B} (p : prog A) (f : A -> prog B) (w : world) :
  exec (prog_bind p f) w =
  let r := exec p w in
  let r' := exec (f (yield r)) (after r) in
  mkRun (calls r ++ calls r') (after r') (yield r').
Proof.
  revert w; induction p as [a | c k IH]; intro w; cbn.
  - now destruct (exec (f a) w).
  - destruct (respond c w) as [x w1]. now rewrite IH.
Qed.

Lemma invoke_mbind {X S A B} (m : method X S A) (f : A -> method X S B)
      (self : S) (w : world) :
  invoke (mbind m f) self w =
  let r := invoke m self w in
  match returned r with
  | Normal a =>
      let r' := invoke (f a) (object r) (after r) in
      mkRun (calls r ++ calls r') (after r') (yield r')
  | Thrown e => mkRun (calls r) (after r) (Thrown e, object r)
  | AssertFailed => mkRun (calls r) (after r) (AssertFailed, object r)
  | Undefined => mkRun (calls r) (after r) (Undefined, object r)
  end.
Proof.
  unfold invoke, mbind, returned, object. rewrite exec_prog_bind. cbn.
  destruct (fst (yield (exec (m self) w))); cbn;
    rewrite ?app_nil_r; reflexivity.
Qed.

Lemma keeps_mret {X S A} (a : A) : keeps_fields (@mret X S A a).
Proof. now intros self w. Qed.

Lemma keeps_throw {X S A} (e : X) : keeps_fields (@throw X S A e).
Proof. now intros self w. Qed.

Lemma keeps_undefined {X S A} : keeps_fields (@undefined X S A).
Proof. now intros self w. Qed.

Lemma keeps_this {X S} : keeps_fields (@this X S).
Proof. now intros self w. Qed.

Lemma keeps_assert {X S} (b : bool) : keeps_fields (@assert X S b).
Proof. intros self w. now destruct b. Qed.

Lemma keeps_call {X S} (c : native) : keeps_fields (@call X S c).
Proof.
  intros self w. unfold invoke, call, object. cbn.
  now destruct (respond c w).
Qed.

Lemma keeps_mbind {X S A B} (m : method X S A) (f : A -> method X S B) :
  keeps_fields m -> (forall a, keeps_fields (f a)) -> keeps_fields (mbind m f).
Proof.
  intros Hm Hf self w. rewrite invoke_mbind. cbn.
  specialize (Hm self w).
  destruct (returned (invoke m self w)) as [a | e | |]; cbn; trivial.
  unfold object at 1; cbn.
  transitivity (object (invoke m self w)); [apply Hf | exact Hm].
Qed.

Lemma keeps_if {X S A} (b : bool) (m1 m2 : method X S A) :
  keeps_fields m1 -> keeps_fields m2 -> keeps_fields (if b then m1 else m2).
Proof. now destruct b. Qed.

Lemma keeps_string_of_cstr {X S} (s : char_ptr) :
  keeps_fields (@string_of_cstr X S s).
Proof. destruct s; [apply keeps_mret | apply keeps_undefined]. Qed.

Lemma keeps_string_of_data {X S} (s : char_ptr) (n : Z) :
  keeps_fields (@string_of_data X S s n).
Proof.
  destruct s; cbn; [|apply keeps_undefined].
  apply keeps_if; [apply keeps_mret | apply keeps_undefined].
Qed.

End Running.

Create HintDb frame.
#[export] Hint Resolve keeps_mret keeps_throw keeps_undefined keeps_this
  keeps_assert keeps_mbind keeps_if keeps_string_of_cstr
  keeps_string_of_data : frame.

Lemma is_null_false (p : addr) : p <> nullptr -> is_null p = false.
Proof. intro Hp. now apply Z.eqb_neq. Qed.

Lemma eqb_neq_true (a b : Z) : a <> b -> negb (a =? b) = true.
Proof. intro Hab. apply Z.eqb_neq in Hab. now rewrite Hab. Qed.

Lemma incr_int_in_range (i : Z) : 0 <= i < INT_MAX -> incr_int i = i + 1.
Proof.
  unfold incr_int, wrap_int, INT_MAX. intro Hi.
  rewrite Z.mod_small; lia.
Qed.

Lemma int_of_size_small (s : string) :
  Z.of_nat (String.length s) <= INT_MAX ->
  int_of_size s = Z.of_nat (String.length s).
Proof.
  unfold int_of_size, wrap_int, INT_MAX. intro Hs.
  rewrite Z.mod_small; lia.
Qed.

Lemma substring_prefix_length (n : nat) (s : string) :
  (n <= String.length s)%nat -> String.length (substring 0 n s) = n.
Proof.
  revert s; induction n as [|n IH]; intros s Hn.
  - now destruct s.
  - destruct s as [|c s]; cbn in *; [lia|].
    f_equal. apply IH. lia.
Qed.

(** Peels a member function apart into the pieces above. *)
Ltac frame :=
  repeat first
    [ progress auto with frame
    | match goal with
      | |- keeps_fields (call ?c) => exact (keeps_call c)
      end
    | apply keeps_mbind; [|intro]
    | match goal with
      | |- keeps_fields (match ?x with _ => _ end) => destruct x
      end ].

(* ================================================================= *)
(** ** Properties of the wrapper *)

Section Properties.
Context {H : sqlite3_h} {E : sqlite3_engine}.

(** *** Which member functions leave the owned handle alone *)

Lemma Main_throw_from_statement_keeps {A} (result : Z) :
  keeps_fields (@Main.throw_from_statement A result).
Proof. unfold Main.throw_from_statement. frame. Qed.

Lemma Main_execute_keeps (sql : string) : keeps_fields (Main.execute sql).
Proof. unfold Main.execute. frame. Qed.

Lemma Main_lastRowId_keeps : keeps_fields Main.lastRowId.
Proof. unfold Main.lastRowId. frame. Qed.

Lemma Main_bind_int_keeps (index value : Z) :
  keeps_fields (Main.bind_int index value).
Proof.
  pose proof (@Main_throw_from_statement_keeps unit).
  unfold Main.bind_int. frame.
Qed.

Lemma Main_bind_int64_keeps (index value : Z) :
  keeps_fields (Main.bind_int64 index value).
Proof.
  pose proof (@Main_throw_from_statement_keeps unit).
  unfold Main.bind_int64. frame.
Qed.

Lemma Main_bind_string_keeps (index : Z) (value : string) :
  keeps_fields (Main.bind_string index value).
Proof.
  pose proof (@Main_throw_from_statement_keeps unit).
  unfold Main.bind_string. frame.
Qed.

Lemma Main_step_keeps : keeps_fields Main.step.
Proof.
  pose proof (@Main_throw_from_statement_keeps bool).
  unfold Main.step. frame.
Qed.

Lemma Main_reset_keeps : keeps_fields Main.reset.
Proof.
  pose proof (@Main_throw_from_statement_keeps unit).
  unfold Main.reset. frame.
Qed.

Lemma Main_getInt_keeps (column : Z) : keeps_fields (Main.getInt column).
Proof. unfold Main.getInt. frame. Qed.

Lemma Main_getInt64_keeps (column : Z) : keeps_fields (Main.getInt64 column).
Proof. unfold Main.getInt64. frame. Qed.

Lemma Main_getString_keeps (column : Z) : keeps_fields (Main.getString column).
Proof. unfold Main.getString. frame. Qed.

Lemma Main_getBlob_keeps (column : Z) : keeps_fields (Main.getBlob column).
Proof. unfold Main.getBlob. frame. Qed.

(** C10.  [execute], the three [bind]s, [step], [reset] and the column
    getters [getInt], [getInt64], [getString], [getBlob] hand the object back
    with the handle it had, against every engine and however the call ends
    (return, [SqlException], failed assertion); so do [lastRowId] and the
    transaction helpers, which leaves [open], [prepare] and destruction as
    the member functions that change the owned handle. *)
Theorem handle_changes_only_in_open_prepare
        (c : Main.Connection) (s : Main.Statement) (w : world)
        (sql text : string) (index value value64 column : Z) :
  (object (invoke (Main.execute sql) c w) = c /\
   object (invoke Main.lastRowId c w) = c /\
   object (invoke Main.beginTransaction c w) = c /\
   object (invoke Main.rollbackTransaction c w) = c /\
   object (invoke Main.commitTransaction c w) = c) /\
  (object (invoke (Main.bind_int index value) s w) = s /\
   object (invoke (Main.bind_int64 index value64) s w) = s /\
   object (invoke (Main.bind_string index text) s w) = s) /\
  (object (invoke Main.step s w) = s /\
   object (invoke Main.reset s w) = s) /\
  (object (invoke (Main.getInt column) s w) = s /\
   object (invoke (Main.getInt64 column) s w) = s /\
   object (invoke (Main.getString column) s w) = s /\
   object (invoke (Main.getBlob column) s w) = s).
Proof.
  repeat split.
  - apply Main_execute_keeps.
  - apply Main_lastRowId_keeps.
  - apply Main_execute_keeps.
  - apply Main_execute_keeps.
  - apply Main_execute_keeps.
  - apply Main_bind_int_keeps.
  - apply Main_bind_int64_keeps.
  - apply Main_bind_string_keeps.
  - apply Main_step_keeps.
  - apply Main_reset_keeps.
  - apply Main_getInt_keeps.
  - apply Main_getInt64_keeps.
  - apply Main_getString_keeps.
  - apply Main_getBlob_keeps.
Qed.

(** *** [step] *)

(** Feeds the engine's recorded answer to the run and simplifies. *)
Ltac answered Heq := cbn; rewrite Heq; cbn.

Lemma Main_step_run (stmt : addr) (w w1 : world) (result : Z) :
  stmt <> nullptr ->
  respond (sqlite3_step stmt) w = (result, w1) ->
  returned (invoke Main.step {| Main.m_stmt := stmt |} w) =
  returned (invoke
              (if result =? SQLITE_ROW then mret true
               else if result =? SQLITE_DONE then mret false
               else Main.throw_from_statement result)
              {| Main.m_stmt := stmt |} w1).
Proof.
  intros Hs Hstep. unfold invoke, Main.step, returned.
  cbn. rewrite (is_null_false _ Hs). now answered Hstep.
Qed.

Lemma Main_throw_from_statement_run {A} (stmt db : addr) (w w1 w2 : world)
      (result : Z) (msg : string) :
  respond (sqlite3_db_handle stmt) w = (db, w1) ->
  respond (sqlite3_errmsg db) w1 = (msg, w2) ->
  invoke (@Main.throw_from_statement A result) {| Main.m_stmt := stmt |} w =
  mkRun [sqlite3_db_handle stmt; sqlite3_errmsg db] w2
        (Thrown {| Main.errorCode := result; Main.errorMessage := msg |},
         {| Main.m_stmt := stmt |}).
Proof.
  intros Hdb Hmsg. unfold invoke, Main.throw_from_statement.
  answered Hdb. now answered Hmsg.
Qed.

Lemma Legacy_step_run (stmt : addr) (w w1 : world) (result : Z) :
  stmt <> nullptr ->
  respond (sqlite3_step stmt) w = (result, w1) ->
  returned (invoke Legacy.step {| Legacy.m_stmt := stmt |} w) =
  returned (invoke
              (if result =? SQLITE_ROW then mret true
               else if result =? SQLITE_DONE then mret false
               else Legacy.throw_from_statement result)
              {| Legacy.m_stmt := stmt |} w1).
Proof.
  intros Hs Hstep. unfold invoke, Legacy.step, returned.
  cbn. rewrite (is_null_false _ Hs). now answered Hstep.
Qed.

Lemma Legacy_throw_from_statement_run {A} (stmt db : addr) (w w1 w2 : world)
      (result : Z) (msg : string) :
  respond (sqlite3_db_handle stmt) w = (db, w1) ->
  respond (sqlite3_errmsg db) w1 = (msg, w2) ->
  invoke (@Legacy.throw_from_statement A result) {| Legacy.m_stmt := stmt |} w =
  mkRun [sqlite3_db_handle stmt; sqlite3_errmsg db] w2
        (Thrown {| Legacy.error := result; Legacy.message := msg |},
         {| Legacy.m_stmt := stmt |}).
Proof.
  intros Hdb Hmsg. unfold invoke, Legacy.throw_from_statement.
  answered Hdb. now answered Hmsg.
Qed.

(** C2.  On a prepared statement (both copies of the header), [step]
    returns [true] exactly when [sqlite3_step] answers SQLITE_ROW, returns
    [false] exactly when it answers SQLITE_DONE, and on any other answer
    throws an [SqlException] holding that answer and the message
    [sqlite3_errmsg] gives for the statement's session
    ([sqlite3_db_handle]); in that case it does not return. *)
Theorem step_translates_native_result
        (stmt : addr) (w w1 w2 w3 : world) (result : Z) (db : addr)
        (msg : string) :
  stmt <> nullptr ->
  SQLITE_ROW <> SQLITE_DONE ->
  respond (sqlite3_step stmt) w = (result, w1) ->
  respond (sqlite3_db_handle stmt) w1 = (db, w2) ->
  respond (sqlite3_errmsg db) w2 = (msg, w3) ->
  let r := invoke Main.step {| Main.m_stmt := stmt |} w in
  let r' := invoke Legacy.step {| Legacy.m_stmt := stmt |} w in
  ((returned r = Normal true <-> result = SQLITE_ROW) /\
   (returned r = Normal false <-> result = SQLITE_DONE) /\
   (result <> SQLITE_ROW -> result <> SQLITE_DONE ->
    returned r =
    Thrown {| Main.errorCode := result; Main.errorMessage := msg |})) /\
  ((returned r' = Normal true <-> result = SQLITE_ROW) /\
   (returned r' = Normal false <-> result = SQLITE_DONE) /\
   (result <> SQLITE_ROW -> result <> SQLITE_DONE ->
    returned r' =
    Thrown {| Legacy.error := result; Legacy.message := msg |})).
Proof.
  intros Hs Hdistinct Hstep Hdb Hmsg r r'. subst r r'.
  rewrite (Main_step_run _ _ _ _ Hs Hstep),
          (Legacy_step_run _ _ _ _ Hs Hstep).
  destruct (Z.eqb_spec result SQLITE_ROW) as [Hrow | Hrow];
    [| destruct (Z.eqb_spec result SQLITE_DONE) as [Hdone | Hdone]].
  - cbn. repeat split; intros; try easy; congruence.
  - cbn. repeat split; intros; try easy; congruence.
  - rewrite (Main_throw_from_statement_run _ _ _ _ _ _ _ Hdb Hmsg),
            (Legacy_throw_from_statement_run _ _ _ _ _ _ _ Hdb Hmsg).
    cbn. repeat split; intros; try easy; congruence.
Qed.

(** *** [bind] *)

Lemma Main_throw_from_statement_calls {A} (stmt : addr) (w : world)
      (result : Z) :
  filter is_bind_call
    (calls (invoke (@Main.throw_from_statement A result)
                   {| Main.m_stmt := stmt |} w)) = [].
Proof.
  destruct (respond (sqlite3_db_handle stmt) w) as [db w1] eqn:Hdb.
  destruct (respond (sqlite3_errmsg db) w1) as [msg w2] eqn:Hmsg.
  now rewrite (Main_throw_from_statement_run _ _ _ _ _ _ _ Hdb Hmsg).
Qed.

Lemma Legacy_throw_from_statement_calls {A} (stmt : addr) (w : world)
      (result : Z) :
  filter is_bind_call
    (calls (invoke (@Legacy.throw_from_statement A result)
                   {| Legacy.m_stmt := stmt |} w)) = [].
Proof.
  destruct (respond (sqlite3_db_handle stmt) w) as [db w1] eqn:Hdb.
  destruct (respond (sqlite3_errmsg db) w1) as [msg w2] eqn:Hmsg.
  now rewrite (Legacy_throw_from_statement_run _ _ _ _ _ _ _ Hdb Hmsg).
Qed.

(** Runs a [bind]: past the assertion, the native call, then either the
    normal return or the throwing tail. *)
Ltac run_bind Hs tail :=
  let rc := fresh "rc" in
  let w1 := fresh "w" in
  cbn; rewrite (is_null_false _ Hs); cbn;
  match goal with
  | |- context [respond ?c ?w] => destruct (respond c w) as [rc w1]
  end;
  cbn; destruct (rc =? SQLITE_OK); cbn; [reflexivity|];
  f_equal; apply tail.

(** C1, as the code has it.  In headers/cppsqlite.h, for an index [i] with
    [0 <= i < INT_MAX], each of the three [bind] overloads makes exactly one
    native bind call, on the statement's own handle and at parameter
    [i + 1]; index 0 therefore addresses the engine's parameter 1.  In
    cppsqlite/headers/cppsqlite.h the two [bind] overloads hand [i] to the
    native call as it is. *)
Theorem bind_native_index
        (stmt i value value64 : Z) (text : string) (w : world) :
  stmt <> nullptr ->
  0 <= i < INT_MAX ->
  (filter is_bind_call
     (calls (invoke (Main.bind_int i value) {| Main.m_stmt := stmt |} w)) =
   [sqlite3_bind_int stmt (i + 1) value] /\
   filter is_bind_call
     (calls (invoke (Main.bind_int64 i value64) {| Main.m_stmt := stmt |} w)) =
   [sqlite3_bind_int64 stmt (i + 1) value64] /\
   filter is_bind_call
     (calls (invoke (Main.bind_string i text) {| Main.m_stmt := stmt |} w)) =
   [sqlite3_bind_text stmt (i + 1) text (int_of_size text) SQLITE_TRANSIENT]) /\
  (filter is_bind_call
     (calls (invoke (Legacy.bind_int i value) {| Legacy.m_stmt := stmt |} w)) =
   [sqlite3_bind_int stmt i value] /\
   filter is_bind_call
     (calls (invoke (Legacy.bind_string i text) {| Legacy.m_stmt := stmt |} w)) =
   [sqlite3_bind_text stmt i text (int_of_size text) SQLITE_TRANSIENT]).
Proof.
  intros Hs Hi.
  unfold invoke, Main.bind_int, Main.bind_int64, Main.bind_string,
    Legacy.bind_int, Legacy.bind_string.
  rewrite (incr_int_in_range _ Hi).
  repeat split.
  - run_bind Hs (@Main_throw_from_statement_calls unit).
  - run_bind Hs (@Main_throw_from_statement_calls unit).
  - run_bind Hs (@Main_throw_from_statement_calls unit).
  - run_bind Hs (@Legacy_throw_from_statement_calls unit).
  - run_bind Hs (@Legacy_throw_from_statement_calls unit).
Qed.

(** *** [getString], [getBlob] *)

(** C5.  When [sqlite3_column_text] hands back a null pointer, [getString]
    (both copies of the header) returns the empty string; when
    [sqlite3_column_blob] hands back a null pointer, [getBlob] returns the
    empty byte sequence.  Both return normally: nothing is thrown and the
    null pointer is not read through. *)
Theorem null_column_reads_as_empty (stmt column : Z) (w : world) :
  (fst (respond (sqlite3_column_text stmt column) w) = None ->
   returned (invoke (Main.getString column) {| Main.m_stmt := stmt |} w) =
   Normal EmptyString /\
   returned (invoke (Legacy.getString column) {| Legacy.m_stmt := stmt |} w) =
   Normal EmptyString) /\
  (fst (respond (sqlite3_column_blob stmt column)
                (snd (respond (sqlite3_column_bytes stmt column) w))) = None ->
   returned (invoke (Main.getBlob column) {| Main.m_stmt := stmt |} w) =
   Normal EmptyString).
Proof.
  unfold invoke, returned, Main.getString, Legacy.getString, Main.getBlob.
  cbn. split.
  - destruct (respond (sqlite3_column_text stmt column) w) as [str w1].
    cbn. intros ->. now split.
  - destruct (respond (sqlite3_column_bytes stmt column) w) as [dataSize w1].
    cbn.
    destruct (respond (sqlite3_column_blob stmt column) w1) as [data w2].
    cbn. now intros ->.
Qed.

(** C8.  [getBlob] makes two native calls, [sqlite3_column_bytes] and then
    [sqlite3_column_blob], in that order; when the pointer is not null and
    addresses at least the [dataSize] bytes just read, the byte sequence
    returned is the first [dataSize] bytes there, so its length is
    [dataSize]. *)
Theorem getBlob_reads_length_then_pointer
        (stmt column : Z) (w w1 w2 : world) (dataSize : Z) (data : char_ptr) :
  respond (sqlite3_column_bytes stmt column) w = (dataSize, w1) ->
  respond (sqlite3_column_blob stmt column) w1 = (data, w2) ->
  let r := invoke (Main.getBlob column) {| Main.m_stmt := stmt |} w in
  calls r = [sqlite3_column_bytes stmt column; sqlite3_column_blob stmt column] /\
  forall buf : string,
    data = Some buf ->
    0 <= dataSize <= Z.of_nat (String.length buf) ->
    exists bytes : string,
      returned r = Normal bytes /\
      bytes = substring 0 (Z.to_nat dataSize) buf /\
      Z.of_nat (String.length bytes) = dataSize.
Proof.
  intros Hbytes Hblob r. subst r.
  unfold invoke, returned, Main.getBlob.
  answered Hbytes. answered Hblob. split.
  - destruct data as [buf|]; cbn; [|reflexivity].
    now destruct ((0 <=? dataSize) && (dataSize <=? Z.of_nat (String.length buf))).
  - intros buf -> [Hlo Hhi]. cbn.
    apply Z.leb_le in Hlo as Hlo'. apply Z.leb_le in Hhi as Hhi'.
    rewrite Hlo', Hhi'. cbn.
    eexists; repeat split.
    rewrite substring_prefix_length; lia.
Qed.

(** *** [open] *)

Lemma Main_open_failed (db : addr) (fileName : string) (w w1 w2 : world)
      (result : Z) (raw : addr) (msg : string) :
  respond (sqlite3_open fileName) w = ((result, raw), w1) ->
  result <> SQLITE_OK ->
  respond (sqlite3_errmsg raw) w1 = (msg, w2) ->
  invoke (Main.open fileName) {| Main.m_db := db |} w =
  mkRun ([sqlite3_open fileName; sqlite3_errmsg raw]
           ++ if is_null raw then [] else [sqlite3_close raw])
        (if is_null raw then w2 else snd (respond (sqlite3_close raw) w2))
        (Thrown {| Main.errorCode := result; Main.errorMessage := msg |},
         {| Main.m_db := db |}).
Proof.
  intros Hopen Hfail Hmsg. unfold invoke, Main.open.
  answered Hopen. rewrite (eqb_neq_true _ _ Hfail). answered Hmsg.
  unfold unique_ptr_release. destruct (is_null raw); cbn; [reflexivity|].
  now destruct (respond (sqlite3_close raw) w2).
Qed.

Lemma Main_open_succeeded (db : addr) (fileName : string) (w w1 : world)
      (raw : addr) :
  respond (sqlite3_open fileName) w = ((SQLITE_OK, raw), w1) ->
  invoke (Main.open fileName) {| Main.m_db := db |} w =
  mkRun (sqlite3_open fileName
           :: if is_null db then [] else [sqlite3_close db])
        (if is_null db then w1 else snd (respond (sqlite3_close db) w1))
        (Normal tt, {| Main.m_db := raw |}).
Proof.
  intros Hopen. unfold invoke, Main.open.
  answered Hopen. rewrite Z.eqb_refl. cbn.
  unfold unique_ptr_release. destruct (is_null db); cbn; [reflexivity|].
  now destruct (respond (sqlite3_close db) w1).
Qed.

Lemma Legacy_open_failed (db : addr) (fileName : string) (w w1 w2 : world)
      (result : Z) (raw : addr) (msg : string) :
  respond (sqlite3_open fileName) w = ((result, raw), w1) ->
  result <> SQLITE_OK ->
  respond (sqlite3_errmsg raw) w1 = (msg, w2) ->
  invoke (Legacy.open fileName) {| Legacy.m_db := db |} w =
  mkRun ([sqlite3_open fileName; sqlite3_errmsg raw]
           ++ if is_null raw then [] else [sqlite3_close raw])
        (if is_null raw then w2 else snd (respond (sqlite3_close raw) w2))
        (Thrown {| Legacy.error := result; Legacy.message := msg |},
         {| Legacy.m_db := db |}).
Proof.
  intros Hopen Hfail Hmsg. unfold invoke, Legacy.open.
  answered Hopen. rewrite (eqb_neq_true _ _ Hfail). answered Hmsg.
  unfold unique_ptr_release. destruct (is_null raw); cbn; [reflexivity|].
  now destruct (respond (sqlite3_close raw) w2).
Qed.

(** C7.  When [sqlite3_open] reports anything but SQLITE_OK, [open] (both
    copies of the header) ends by throwing, and by then it has made exactly
    these native calls: [sqlite3_open], [sqlite3_errmsg] on the handle that
    call produced, and, that handle not being null, one [sqlite3_close] on
    it.  The close is part of the failed call itself, so the handle is
    released, once, before the caller sees the exception. *)
Theorem failed_open_closes_its_handle_once
        (db : addr) (fileName : string) (w w1 : world) (result : Z)
        (raw : addr) :
  respond (sqlite3_open fileName) w = ((result, raw), w1) ->
  result <> SQLITE_OK ->
  let r := invoke (Main.open fileName) {| Main.m_db := db |} w in
  let r' := invoke (Legacy.open fileName) {| Legacy.m_db := db |} w in
  ((exists e, returned r = Thrown e) /\
   calls r = ([sqlite3_open fileName; sqlite3_errmsg raw]
                ++ if is_null raw then [] else [sqlite3_close raw])%list /\
   (raw <> nullptr ->
    filter (is_close_of raw) (calls r) = [sqlite3_close raw])) /\
  ((exists e, returned r' = Thrown e) /\
   calls r' = ([sqlite3_open fileName; sqlite3_errmsg raw]
                 ++ if is_null raw then [] else [sqlite3_close raw])%list /\
   (raw <> nullptr ->
    filter (is_close_of raw) (calls r') = [sqlite3_close raw])).
Proof.
  intros Hopen Hfail r r'. subst r r'.
  destruct (respond (sqlite3_errmsg raw) w1) as [msg w2] eqn:Hmsg.
  rewrite (Main_open_failed _ _ _ _ _ _ _ _ Hopen Hfail Hmsg),
          (Legacy_open_failed _ _ _ _ _ _ _ _ Hopen Hfail Hmsg).
  unfold returned. cbn.
  repeat split; eauto;
    intros Hraw; rewrite (is_null_false _ Hraw); cbn;
    now rewrite Z.eqb_refl.
Qed.

(** C3, as the code has it.  When [sqlite3_open] reports anything but
    SQLITE_OK, [open] throws an [SqlException] with that code and leaves the
    connection's handle as it was before the call: absent if it was absent,
    the handle held before otherwise.  A later [open] on the same object for
    which [sqlite3_open] reports SQLITE_OK returns normally and leaves the
    object holding the new handle. *)
Theorem failed_open_leaves_handle_as_it_was
        (db : addr) (fileName : string) (w w1 : world) (result : Z)
        (raw : addr) :
  respond (sqlite3_open fileName) w = ((result, raw), w1) ->
  result <> SQLITE_OK ->
  let r := invoke (Main.open fileName) {| Main.m_db := db |} w in
  (exists msg,
     returned r =
     Thrown {| Main.errorCode := result; Main.errorMessage := msg |}) /\
  Main.m_db (object r) = db /\
  forall (fileName' : string) (raw' : addr) (w' : world),
    respond (sqlite3_open fileName') (after r) = ((SQLITE_OK, raw'), w') ->
    let r' := invoke (Main.open fileName') (object r) (after r) in
    returned r' = Normal tt /\ Main.m_db (object r') = raw'.
Proof.
  intros Hopen Hfail r. subst r.
  destruct (respond (sqlite3_errmsg raw) w1) as [msg w2] eqn:Hmsg.
  rewrite (Main_open_failed _ _ _ _ _ _ _ _ Hopen Hfail Hmsg).
  unfold returned, object. cbn [calls after yield fst snd Main.m_db].
  split; [now exists msg|]. split; [reflexivity|].
  intros fileName' raw' w' Hopen'.
  now rewrite (Main_open_succeeded _ _ _ _ _ Hopen').
Qed.

(** *** [prepare] *)

Lemma Main_prepare_failed (conn old : addr) (sql : string) (w w1 w2 : world)
      (result : Z) (raw : addr) (msg : string) :
  respond (sqlite3_prepare_v2 conn sql (int_of_size sql)) w
    = ((result, raw), w1) ->
  result <> SQLITE_OK ->
  respond (sqlite3_errmsg conn) w1 = (msg, w2) ->
  invoke (Main.prepare {| Main.m_db := conn |} sql) {| Main.m_stmt := old |} w =
  mkRun ([sqlite3_prepare_v2 conn sql (int_of_size sql); sqlite3_errmsg conn]
           ++ if is_null raw then [] else [sqlite3_finalize raw])
        (if is_null raw then w2 else snd (respond (sqlite3_finalize raw) w2))
        (Thrown {| Main.errorCode := result; Main.errorMessage := msg |},
         {| Main.m_stmt := old |}).
Proof.
  intros Hprep Hfail Hmsg. unfold invoke, Main.prepare, Main.ptr.
  answered Hprep. rewrite (eqb_neq_true _ _ Hfail). answered Hmsg.
  unfold unique_ptr_release. destruct (is_null raw); cbn; [reflexivity|].
  now destruct (respond (sqlite3_finalize raw) w2).
Qed.

Lemma Main_prepare_succeeded (conn old : addr) (sql : string) (w w1 : world)
      (raw : addr) :
  respond (sqlite3_prepare_v2 conn sql (int_of_size sql)) w
    = ((SQLITE_OK, raw), w1) ->
  invoke (Main.prepare {| Main.m_db := conn |} sql) {| Main.m_stmt := old |} w =
  mkRun (sqlite3_prepare_v2 conn sql (int_of_size sql)
           :: if is_null old then [] else [sqlite3_finalize old])
        (if is_null old then w1 else snd (respond (sqlite3_finalize old) w1))
        (Normal tt, {| Main.m_stmt := raw |}).
Proof.
  intros Hprep. unfold invoke, Main.prepare, Main.ptr.
  answered Hprep. rewrite Z.eqb_refl. cbn.
  unfold unique_ptr_release. destruct (is_null old); cbn; [reflexivity|].
  now destruct (respond (sqlite3_finalize old) w1).
Qed.

Lemma Legacy_prepare_failed (conn old : addr) (sql : string) (w w1 w2 : world)
      (result : Z) (raw : addr) (msg : string) :
  respond (sqlite3_prepare_v2 conn sql (int_of_size sql)) w
    = ((result, raw), w1) ->
  result <> SQLITE_OK ->
  respond (sqlite3_errmsg conn) w1 = (msg, w2) ->
  invoke (Legacy.prepare {| Legacy.m_db := conn |} sql)
         {| Legacy.m_stmt := old |} w =
  mkRun ([sqlite3_prepare_v2 conn sql (int_of_size sql); sqlite3_errmsg conn]
           ++ if is_null raw then [] else [sqlite3_finalize raw])
        (if is_null raw then w2 else snd (respond (sqlite3_finalize raw) w2))
        (Thrown {| Legacy.error := result; Legacy.message := msg |},
         {| Legacy.m_stmt := old |}).
Proof.
  intros Hprep Hfail Hmsg. unfold invoke, Legacy.prepare, Legacy.data.
  answered Hprep. rewrite (eqb_neq_true _ _ Hfail). answered Hmsg.
  unfold unique_ptr_release. destruct (is_null raw); cbn; [reflexivity|].
  now destruct (respond (sqlite3_finalize raw) w2).
Qed.

Lemma Legacy_prepare_succeeded (conn old : addr) (sql : string) (w w1 : world)
      (raw : addr) :
  respond (sqlite3_prepare_v2 conn sql (int_of_size sql)) w
    = ((SQLITE_OK, raw), w1) ->
  invoke (Legacy.prepare {| Legacy.m_db := conn |} sql)
         {| Legacy.m_stmt := old |} w =
  mkRun (sqlite3_prepare_v2 conn sql (int_of_size sql)
           :: if is_null old then [] else [sqlite3_finalize old])
        (if is_null old then w1 else snd (respond (sqlite3_finalize old) w1))
        (Normal tt, {| Legacy.m_stmt := raw |}).
Proof.
  intros Hprep. unfold invoke, Legacy.prepare, Legacy.data.
  answered Hprep. rewrite Z.eqb_refl. cbn.
  unfold unique_ptr_release. destruct (is_null old); cbn; [reflexivity|].
  now destruct (respond (sqlite3_finalize old) w1).
Qed.

Lemma MainSteps_prepare_failed (conn old : addr) (sql : string)
      (w w1 w2 : world) (result : Z) (raw : addr) (msg : string) :
  respond (sqlite3_prepare_v2 conn sql (int_of_size sql)) w
    = ((result, raw), w1) ->
  result <> SQLITE_OK ->
  respond (sqlite3_errmsg conn) w1 = (msg, w2) ->
  invoke (MainSteps.prepare {| Main.m_db := conn |} sql)
         ({| Main.m_stmt := old |}, []) w =
  mkRun ([sqlite3_prepare_v2 conn sql (int_of_size sql); sqlite3_errmsg conn]
           ++ if is_null raw then [] else [sqlite3_finalize raw])
        (if is_null raw then w2 else snd (respond (sqlite3_finalize raw) w2))
        (Thrown {| Main.errorCode := result; Main.errorMessage := msg |},
         ({| Main.m_stmt := old |},
          ([Calls (sqlite3_prepare_v2 conn sql (int_of_size sql));
            Calls (sqlite3_errmsg conn)]
             ++ if is_null raw then [] else [Calls (sqlite3_finalize raw)])%list)).
Proof.
  intros Hprep Hfail Hmsg. unfold invoke, MainSteps.prepare, Main.ptr.
  answered Hprep. rewrite (eqb_neq_true _ _ Hfail). answered Hmsg.
  unfold unique_ptr_releasing. destruct (is_null raw); cbn; [reflexivity|].
  now destruct (respond (sqlite3_finalize raw) w2).
Qed.

Lemma MainSteps_prepare_succeeded (conn old : addr) (sql : string)
      (w w1 : world) (raw : addr) :
  respond (sqlite3_prepare_v2 conn sql (int_of_size sql)) w
    = ((SQLITE_OK, raw), w1) ->
  invoke (MainSteps.prepare {| Main.m_db := conn |} sql)
         ({| Main.m_stmt := old |}, []) w =
  mkRun (sqlite3_prepare_v2 conn sql (int_of_size sql)
           :: if is_null old then [] else [sqlite3_finalize old])
        (if is_null old then w1 else snd (respond (sqlite3_finalize old) w1))
        (Normal tt,
         ({| Main.m_stmt := raw |},
          ([Calls (sqlite3_prepare_v2 conn sql (int_of_size sql)); Stores raw]
             ++ if is_null old then [] else [Calls (sqlite3_finalize old)])%list)).
Proof.
  intros Hprep. unfold invoke, MainSteps.prepare, Main.ptr.
  answered Hprep. rewrite Z.eqb_refl. cbn.
  unfold unique_ptr_releasing. destruct (is_null old); cbn; [reflexivity|].
  now destruct (respond (sqlite3_finalize old) w1).
Qed.

Lemma LegacySteps_prepare_failed (conn old : addr) (sql : string)
      (w w1 w2 : world) (result : Z) (raw : addr) (msg : string) :
  respond (sqlite3_prepare_v2 conn sql (int_of_size sql)) w
    = ((result, raw), w1) ->
  result <> SQLITE_OK ->
  respond (sqlite3_errmsg conn) w1 = (msg, w2) ->
  invoke (LegacySteps.prepare {| Legacy.m_db := conn |} sql)
         ({| Legacy.m_stmt := old |}, []) w =
  mkRun ([sqlite3_prepare_v2 conn sql (int_of_size sql); sqlite3_errmsg conn]
           ++ if is_null raw then [] else [sqlite3_finalize raw])
        (if is_null raw then w2 else snd (respond (sqlite3_finalize raw) w2))
        (Thrown {| Legacy.error := result; Legacy.message := msg |},
         ({| Legacy.m_stmt := old |},
          ([Calls (sqlite3_prepare_v2 conn sql (int_of_size sql));
            Calls (sqlite3_errmsg conn)]
             ++ if is_null raw then [] else [Calls (sqlite3_finalize raw)])%list)).
Proof.
  intros Hprep Hfail Hmsg. unfold invoke, LegacySteps.prepare, Legacy.data.
  answered Hprep. rewrite (eqb_neq_true _ _ Hfail). answered Hmsg.
  unfold unique_ptr_releasing. destruct (is_null raw); cbn; [reflexivity|].
  now destruct (respond (sqlite3_finalize raw) w2).
Qed.

Lemma LegacySteps_prepare_succeeded (conn old : addr) (sql : string)
      (w w1 : world) (raw : addr) :
  respond (sqlite3_prepare_v2 conn sql (int_of_size sql)) w
    = ((SQLITE_OK, raw), w1) ->
  invoke (LegacySteps.prepare {| Legacy.m_db := conn |} sql)
         ({| Legacy.m_stmt := old |}, []) w =
  mkRun (sqlite3_prepare_v2 conn sql (int_of_size sql)
           :: if is_null old then [] else [sqlite3_finalize old])
        (if is_null old then w1 else snd (respond (sqlite3_finalize old) w1))
        (Normal tt,
         ({| Legacy.m_stmt := raw |},
          ([Calls (sqlite3_prepare_v2 conn sql (int_of_size sql)); Stores raw]
             ++ if is_null old then [] else [Calls (sqlite3_finalize old)])%list)).
Proof.
  intros Hprep. unfold invoke, LegacySteps.prepare, Legacy.data.
  answered Hprep. rewrite Z.eqb_refl. cbn.
  unfold unique_ptr_releasing. destruct (is_null old); cbn; [reflexivity|].
  now destruct (respond (sqlite3_finalize old) w1).
Qed.

(** C4, as the code has it.  [prepare] (both copies of the header), seen
    as its run [r] and, step by step, as the run [s] that keeps a journal of
    native calls and stores; the two are the same run (same calls, same
    outcome, same fields, same engine state).

    When [sqlite3_prepare_v2] reports anything but SQLITE_OK: the message is
    asked of the connection's session handle ([sqlite3_errmsg] on
    [connection.ptr()]), the handle the failed compilation produced is
    finalized if it is not null, and an [SqlException] with that code and
    that message is thrown; the statement's field is not stored to.

    When it reports SQLITE_OK: the new handle is stored in the statement
    first, and only then is the handle it held before, if any, finalized;
    that [sqlite3_finalize] is the last native call, made after the new
    statement was compiled and stored. *)
Theorem prepare_stores_then_releases
        (conn old : addr) (sql : string) (w w1 w2 : world) (result : Z)
        (raw : addr) (msg : string) :
  respond (sqlite3_prepare_v2 conn sql (int_of_size sql)) w
    = ((result, raw), w1) ->
  respond (sqlite3_errmsg conn) w1 = (msg, w2) ->
  let compile := sqlite3_prepare_v2 conn sql (int_of_size sql) in
  let r := invoke (Main.prepare {| Main.m_db := conn |} sql)
                  {| Main.m_stmt := old |} w in
  let s := invoke (MainSteps.prepare {| Main.m_db := conn |} sql)
                  ({| Main.m_stmt := old |}, []) w in
  let r' := invoke (Legacy.prepare {| Legacy.m_db := conn |} sql)
                   {| Legacy.m_stmt := old |} w in
  let s' := invoke (LegacySteps.prepare {| Legacy.m_db := conn |} sql)
                   ({| Legacy.m_stmt := old |}, []) w in
  ((calls s = calls r /\ after s = after r /\ returned s = returned r /\
    fst (object s) = object r /\ native_calls (snd (object s)) = calls r) /\
   (calls s' = calls r' /\ after s' = after r' /\ returned s' = returned r' /\
    fst (object s') = object r' /\ native_calls (snd (object s')) = calls r')) /\
  (result <> SQLITE_OK ->
   (returned r =
    Thrown {| Main.errorCode := result; Main.errorMessage := msg |} /\
    Main.m_stmt (object r) = old /\
    calls r =
    ([compile; sqlite3_errmsg conn]
       ++ if is_null raw then [] else [sqlite3_finalize raw])%list /\
    snd (object s) =
    ([Calls compile; Calls (sqlite3_errmsg conn)]
       ++ if is_null raw then [] else [Calls (sqlite3_finalize raw)])%list) /\
   (returned r' =
    Thrown {| Legacy.error := result; Legacy.message := msg |} /\
    Legacy.m_stmt (object r') = old /\
    calls r' =
    ([compile; sqlite3_errmsg conn]
       ++ if is_null raw then [] else [sqlite3_finalize raw])%list /\
    snd (object s') =
    ([Calls compile; Calls (sqlite3_errmsg conn)]
       ++ if is_null raw then [] else [Calls (sqlite3_finalize raw)])%list)) /\
  (result = SQLITE_OK ->
   (returned r = Normal tt /\
    Main.m_stmt (object r) = raw /\
    calls r = compile :: (if is_null old then [] else [sqlite3_finalize old]) /\
    snd (object s) =
    ([Calls compile; Stores raw]
       ++ if is_null old then [] else [Calls (sqlite3_finalize old)])%list) /\
   (returned r' = Normal tt /\
    Legacy.m_stmt (object r') = raw /\
    calls r' = compile :: (if is_null old then [] else [sqlite3_finalize old]) /\
    snd (object s') =
    ([Calls compile; Stores raw]
       ++ if is_null old then [] else [Calls (sqlite3_finalize old)])%list)).
Proof.
  intros Hprep Hmsg compile r s r' s'. subst compile r s r' s'.
  destruct (Z.eq_dec result SQLITE_OK) as [-> | Hfail].
  - rewrite (Main_prepare_succeeded _ old _ _ _ _ Hprep),
            (Legacy_prepare_succeeded _ old _ _ _ _ Hprep),
            (MainSteps_prepare_succeeded _ old _ _ _ _ Hprep),
            (LegacySteps_prepare_succeeded _ old _ _ _ _ Hprep).
    unfold returned, object. cbn.
    split; [|split; [intros Habs; now elim Habs | intros _; now repeat split]].
    destruct (is_null old); now repeat split.
  - rewrite (Main_prepare_failed _ old _ _ _ _ _ _ _ Hprep Hfail Hmsg),
            (Legacy_prepare_failed _ old _ _ _ _ _ _ _ Hprep Hfail Hmsg),
            (MainSteps_prepare_failed _ old _ _ _ _ _ _ _ Hprep Hfail Hmsg),
            (LegacySteps_prepare_failed _ old _ _ _ _ _ _ _ Hprep Hfail Hmsg).
    unfold returned, object. cbn.
    split; [|split; [intros _; now repeat split | intros Habs; contradiction]].
    destruct (is_null raw); now repeat split.
Qed.

(** C9.  When [sqlite3_prepare_v2] reports anything but SQLITE_OK (and
    does not hand the statement's own handle back as the product of the
    failed compilation; sqlite3 stores a null pointer), [prepare] (both
    copies of the header) leaves the statement holding the handle it held,
    and makes no [sqlite3_finalize] call on that handle. *)
Theorem failed_prepare_keeps_compiled_statement
        (conn old : addr) (sql : string) (w w1 : world) (result : Z)
        (raw : addr) :
  respond (sqlite3_prepare_v2 conn sql (int_of_size sql)) w
    = ((result, raw), w1) ->
  result <> SQLITE_OK ->
  raw <> old ->
  let r := invoke (Main.prepare {| Main.m_db := conn |} sql)
                  {| Main.m_stmt := old |} w in
  let r' := invoke (Legacy.prepare {| Legacy.m_db := conn |} sql)
                   {| Legacy.m_stmt := old |} w in
  (Main.m_stmt (object r) = old /\
   filter (is_finalize_of old) (calls r) = []) /\
  (Legacy.m_stmt (object r') = old /\
   filter (is_finalize_of old) (calls r') = []).
Proof.
  intros Hprep Hfail Hfresh r r'. subst r r'.
  destruct (respond (sqlite3_errmsg conn) w1) as [msg w2] eqn:Hmsg.
  rewrite (Main_prepare_failed _ old _ _ _ _ _ _ _ Hprep Hfail Hmsg),
          (Legacy_prepare_failed _ old _ _ _ _ _ _ _ Hprep Hfail Hmsg).
  apply Z.eqb_neq in Hfresh.
  repeat split; cbn; destruct (is_null raw); cbn; trivial;
    now rewrite Hfresh.
Qed.

(** *** Operations on an absent handle *)

Lemma execute_asserts_handle (sql : string) (w : world) :
  invoke (Main.execute sql) Main.Connection_new w =
  mkRun [] w (AssertFailed, Main.Connection_new).
Proof. reflexivity. Qed.

Lemma bind_asserts_handle (index value : Z) (text : string) (w : world) :
  invoke (Main.bind_int index value) Main.Statement_new w =
  mkRun [] w (AssertFailed, Main.Statement_new) /\
  invoke (Main.bind_int64 index value) Main.Statement_new w =
  mkRun [] w (AssertFailed, Main.Statement_new) /\
  invoke (Main.bind_string index text) Main.Statement_new w =
  mkRun [] w (AssertFailed, Main.Statement_new).
Proof. now repeat split. Qed.

Lemma step_asserts_handle (w : world) :
  invoke Main.step Main.Statement_new w =
  mkRun [] w (AssertFailed, Main.Statement_new).
Proof. reflexivity. Qed.

(** C6, what the code does.  On a connection that was never opened,
    [lastRowId] does not check the handle: it calls
    [sqlite3_last_insert_rowid] on the null pointer and returns whatever
    that answers.  On a statement that was never prepared, [reset] does not
    check the handle either: its first act is [sqlite3_reset] on the null
    pointer, no assertion fails, and when the engine answers SQLITE_OK (as
    sqlite3 does for a null statement) it returns normally.  [execute],
    [bind] and [step] assert the handle in the same situation. *)
Theorem reset_and_lastRowId_run_on_absent_handle (w : world) :
  let r := invoke Main.lastRowId Main.Connection_new w in
  let r' := invoke Main.reset Main.Statement_new w in
  (calls r = [sqlite3_last_insert_rowid nullptr] /\
   returned r = Normal (fst (respond (sqlite3_last_insert_rowid nullptr) w))) /\
  (hd_error (calls r') = Some (sqlite3_reset nullptr) /\
   returned r' <> AssertFailed /\
   (fst (respond (sqlite3_reset nullptr) w) = SQLITE_OK ->
    returned r' = Normal tt /\ calls r' = [sqlite3_reset nullptr])).
Proof.
  cbv zeta. unfold invoke, returned, Main.lastRowId, Main.reset. cbn. split.
  - now destruct (respond (sqlite3_last_insert_rowid nullptr) w).
  - destruct (respond (sqlite3_reset nullptr) w) as [result w1]. cbn.
    destruct (Z.eqb_spec result SQLITE_OK) as [-> | Hfail]; cbn.
    + now repeat split.
    + destruct (respond (sqlite3_db_handle nullptr) w1) as [db w2]. cbn.
      destruct (respond (sqlite3_errmsg db) w2) as [msg w3]. cbn.
      now repeat split.
Qed.

End Properties.

(* ================================================================= *)
(** ** Histories: general facts *)

Section Histories.
Context {E : sqlite3_engine}.

Lemma trace_asked {A} (p : prog A) (w : world) :
  map asked (trace p w) = calls (exec p w).
Proof.
  revert w; induction p as [a | c k IH]; intro w; cbn; [reflexivity|].
  destruct (respond c w) as [x w1]. cbn. now rewrite IH.
Qed.

Lemma trace_prog_bind {A B} (p : prog A) (f : A -> prog B) (w : world) :
  trace (prog_bind p f) w =
  (trace p w ++ trace (f (yield (exec p w))) (after (exec p w)))%list.
Proof.
  revert w; induction p as [a | c k IH]; intro w; cbn; [reflexivity|].
  destruct (respond c w) as [x w1]. cbn. now rewrite IH.
Qed.

Lemma history_ended {X S A} (m : method X S A) (self : S) (w : world) :
  history (ended m) self w = history m self w.
Proof.
  unfold history, ended. rewrite trace_prog_bind. cbn. apply app_nil_r.
Qed.

Lemma invoke_ended {X S A} (m : method X S A) (self : S) (w : world) :
  invoke (ended m) self w =
  mkRun (calls (invoke m self w)) (after (invoke m self w))
        (ending (returned (invoke m self w)), object (invoke m self w)).
Proof.
  unfold invoke, ended. rewrite exec_prog_bind. cbn. now rewrite app_nil_r.
Qed.

(** A history without lifecycle calls neither hands out nor releases a
    handle. *)
Lemma quiet_history (t : list event) :
  forallb (fun c => negb (is_lifecycle_call c)) (map asked t) = true ->
  flat_map session_opened t = [] /\ flat_map session_closed t = [] /\
  flat_map statement_compiled t = [] /\ flat_map statement_finalized t = [].
Proof.
  induction t as [|[c x] t IH]; cbn; [now repeat split|].
  intro Hq. apply andb_true_iff in Hq as [Hc Ht].
  destruct (IH Ht) as (-> & -> & -> & ->).
  unfold session_closed, statement_finalized. cbn.
  destruct c; cbn in *; try discriminate; now repeat split.
Qed.

Lemma keeps_handles_history {X S A} (m : method X S A) :
  keeps_handles m ->
  forall (self : S) (w : world),
    flat_map session_opened (history m self w) = [] /\
    flat_map session_closed (history m self w) = [] /\
    flat_map statement_compiled (history m self w) = [] /\
    flat_map statement_finalized (history m self w) = [].
Proof.
  intros Hm self w. apply quiet_history.
  unfold history. rewrite trace_asked. apply Hm.
Qed.

Lemma quiet_mret {X S A} (a : A) : keeps_handles (@mret X S A a).
Proof. now intros self w. Qed.

Lemma quiet_throw {X S A} (e : X) : keeps_handles (@throw X S A e).
Proof. now intros self w. Qed.

Lemma quiet_undefined {X S A} : keeps_handles (@undefined X S A).
Proof. now intros self w. Qed.

Lemma quiet_this {X S} : keeps_handles (@this X S).
Proof. now intros self w. Qed.

Lemma quiet_assert {X S} (b : bool) : keeps_handles (@assert X S b).
Proof. intros self w. now destruct b. Qed.

Lemma quiet_call {X S} (c : native) :
  is_lifecycle_call c = false -> keeps_handles (@call X S c).
Proof.
  intros Hc self w. unfold invoke, call. cbn.
  destruct (respond c w). cbn. now rewrite Hc.
Qed.

Lemma quiet_mbind {X S A B} (m : method X S A) (f : A -> method X S B) :
  keeps_handles m -> (forall a, keeps_handles (f a)) ->
  keeps_handles (mbind m f).
Proof.
  intros Hm Hf self w. rewrite invoke_mbind. cbn.
  specialize (Hm self w).
  destruct (returned (invoke m self w)) as [a | e | |]; cbn; trivial.
  rewrite forallb_app, Hm. apply Hf.
Qed.

Lemma quiet_if {X S A} (b : bool) (m1 m2 : method X S A) :
  keeps_handles m1 -> keeps_handles m2 ->
  keeps_handles (if b then m1 else m2).
Proof. now destruct b. Qed.

Lemma quiet_string_of_cstr {X S} (s : char_ptr) :
  keeps_handles (@string_of_cstr X S s).
Proof. destruct s; [apply quiet_mret | apply quiet_undefined]. Qed.

Lemma quiet_string_of_data {X S} (s : char_ptr) (n : Z) :
  keeps_handles (@string_of_data X S s n).
Proof.
  destruct s; cbn; [|apply quiet_undefined].
  apply quiet_if; [apply quiet_mret | apply quiet_undefined].
Qed.

Lemma balanced_ended {X S A} (handed_out released : event -> list addr)
      (held : S -> list addr) (m : method X S A) :
  balanced handed_out released held m ->
  balanced handed_out released held (ended m).
Proof.
  intros Hm self w. rewrite history_ended, invoke_ended. apply Hm.
Qed.

(** A member function that keeps the fields and makes no lifecycle call is
    balanced, for sessions and for statements. *)
Lemma balanced_quiet {X S A} (held : S -> list addr) (m : method X S A) :
  keeps_fields m -> keeps_handles m ->
  balanced session_opened session_closed held m /\
  balanced statement_compiled statement_finalized held m.
Proof.
  intros Hf Hq. split; intros self w;
    destruct (keeps_handles_history m Hq self w) as (Ho & Hc & Hp & Hz);
    rewrite ?Ho, ?Hc, ?Hp, ?Hz, (Hf self w), app_nil_r; reflexivity.
Qed.

(** Balanced calls, one after the other, are balanced. *)
Lemma use_balanced {X S} (handed_out released : event -> list addr)
      (held : S -> list addr) (ms : list (method X S unit)) :
  Forall (balanced handed_out released held) ms ->
  forall (self : S) (w : world),
    Permutation
      (flat_map released (trace (use ms self) w)
         ++ held (snd (yield (exec (use ms self) w))))
      (held self ++ flat_map handed_out (trace (use ms self) w)).
Proof.
  induction 1 as [| m ms Hm _ IH]; intros self w; cbn [use].
  - cbn. now rewrite app_nil_r.
  - rewrite trace_prog_bind, exec_prog_bind. cbn [yield after].
    specialize (Hm self w). unfold history, invoke, object in Hm.
    destruct (goes_on (fst (yield (exec (m self) w)))).
    + rewrite !flat_map_app.
      specialize (IH (snd (yield (exec (m self) w))) (after (exec (m self) w))).
      rewrite <- app_assoc, IH, !app_assoc.
      now apply Permutation_app_tail.
    + cbn. now rewrite !app_nil_r.
Qed.

(** An object that starts without a handle, is used by balanced calls and
    is then destroyed by a destructor that releases what is held: if the
    process lives to the end, what was released is what was handed out. *)
Lemma lifetime_balanced {X S} (handed_out released : event -> list addr)
      (held : S -> list addr) (ms : list (method X S unit))
      (delete : method X S unit) (new : S) (w : world) :
  Forall (balanced handed_out released held) ms ->
  held new = [] ->
  (forall self w',
     flat_map released (trace (delete self) w') = held self /\
     flat_map handed_out (trace (delete self) w') = []) ->
  fst (yield (exec (lifetime ms delete new) w)) = true ->
  Permutation (flat_map released (trace (lifetime ms delete new) w))
              (flat_map handed_out (trace (lifetime ms delete new) w)).
Proof.
  intros Hms Hnew Hdelete. unfold lifetime.
  rewrite trace_prog_bind, exec_prog_bind. cbn [yield after].
  pose proof (use_balanced _ _ _ _ Hms new w) as Huse.
  rewrite Hnew in Huse. cbn [app] in Huse.
  destruct (yield (exec (use ms new) w)) as [alive self]. cbn [fst snd] in *.
  destruct alive; cbn; [intros _ | discriminate].
  rewrite trace_prog_bind, !flat_map_app. cbn. rewrite !app_nil_r.
  destruct (Hdelete self (after (exec (use ms new) w))) as [-> ->].
  now rewrite app_nil_r.
Qed.

End Histories.

Create HintDb quiet.
#[export] Hint Resolve quiet_mret quiet_throw quiet_undefined quiet_this
  quiet_assert quiet_mbind quiet_if quiet_string_of_cstr
  quiet_string_of_data : quiet.

(** Peels a member function apart, as [frame] does. *)
Ltac quiet :=
  repeat first
    [ progress auto with quiet
    | match goal with
      | |- keeps_handles (call ?c) => exact (quiet_call c eq_refl)
      end
    | apply quiet_mbind; [|intro]
    | match goal with
      | |- keeps_handles (match ?x with _ => _ end) => destruct x
      end ].

(* ================================================================= *)
(** ** Further properties of the wrapper *)

Section Further.
Context {H : sqlite3_h} {E : sqlite3_engine}.

Ltac answered Heq := cbn; rewrite Heq; cbn.

(** *** [execute] and the transaction helpers *)

Lemma Main_execute_run (db : addr) (sql : string) (w : world) :
  db <> nullptr ->
  let a := respond (sqlite3_exec db sql) w in
  let m := respond (sqlite3_errmsg db) (snd a) in
  invoke (Main.execute sql) {| Main.m_db := db |} w =
  if fst a =? SQLITE_OK
  then mkRun [sqlite3_exec db sql] (snd a) (Normal tt, {| Main.m_db := db |})
  else mkRun [sqlite3_exec db sql; sqlite3_errmsg db] (snd m)
             (Thrown {| Main.errorCode := fst a; Main.errorMessage := fst m |},
              {| Main.m_db := db |}).
Proof.
  intros Hdb. unfold invoke, Main.execute. cbn.
  rewrite (is_null_false _ Hdb). cbn.
  destruct (respond (sqlite3_exec db sql) w) as [result w1]. cbn.
  destruct (result =? SQLITE_OK); cbn; [reflexivity|].
  now destruct (respond (sqlite3_errmsg db) w1).
Qed.

Lemma Legacy_execute_run (db : addr) (sql : string) (w : world) :
  db <> nullptr ->
  let a := respond (sqlite3_exec db sql) w in
  let m := respond (sqlite3_errmsg db) (snd a) in
  invoke (Legacy.execute sql) {| Legacy.m_db := db |} w =
  if fst a =? SQLITE_OK
  then mkRun [sqlite3_exec db sql] (snd a) (Normal tt, {| Legacy.m_db := db |})
  else mkRun [sqlite3_exec db sql; sqlite3_errmsg db] (snd m)
             (Thrown {| Legacy.error := fst a; Legacy.message := fst m |},
              {| Legacy.m_db := db |}).
Proof.
  intros Hdb. unfold invoke, Legacy.execute. cbn.
  rewrite (is_null_false _ Hdb). cbn.
  destruct (respond (sqlite3_exec db sql) w) as [result w1]. cbn.
  destruct (result =? SQLITE_OK); cbn; [reflexivity|].
  now destruct (respond (sqlite3_errmsg db) w1).
Qed.

(** X1.  [execute] on an open connection (both copies of the header) makes
    one [sqlite3_exec] call with the text it was given.  On SQLITE_OK it
    returns after that call; on any other answer it asks [sqlite3_errmsg] for
    the connection's message and throws an [SqlException] holding that answer
    and that message.  The connection is never closed by it. *)
Theorem execute_translates_native_result
        (db : addr) (sql : string) (w w1 w2 : world) (result : Z)
        (msg : string) :
  db <> nullptr ->
  respond (sqlite3_exec db sql) w = (result, w1) ->
  respond (sqlite3_errmsg db) w1 = (msg, w2) ->
  let r := invoke (Main.execute sql) {| Main.m_db := db |} w in
  let r' := invoke (Legacy.execute sql) {| Legacy.m_db := db |} w in
  (result = SQLITE_OK ->
   (returned r = Normal tt /\ calls r = [sqlite3_exec db sql]) /\
   (returned r' = Normal tt /\ calls r' = [sqlite3_exec db sql])) /\
  (result <> SQLITE_OK ->
   (returned r =
    Thrown {| Main.errorCode := result; Main.errorMessage := msg |} /\
    calls r = [sqlite3_exec db sql; sqlite3_errmsg db]) /\
   (returned r' =
    Thrown {| Legacy.error := result; Legacy.message := msg |} /\
    calls r' = [sqlite3_exec db sql; sqlite3_errmsg db])).
Proof.
  intros Hdb Hexec Hmsg r r'. subst r r'.
  rewrite (Main_execute_run _ sql w Hdb), (Legacy_execute_run _ sql w Hdb).
  cbv zeta. rewrite Hexec. cbn [fst snd]. rewrite Hmsg. cbn [fst snd].
  split.
  - intros ->. rewrite Z.eqb_refl. now repeat split.
  - intros Hfail. apply Z.eqb_neq in Hfail. rewrite Hfail. now repeat split.
Qed.

(** X2.  [beginTransaction], [rollbackTransaction] and [commitTransaction]
    on an open connection send the engine the texts BEGIN, ROLLBACK and
    COMMIT, each as the first native call, and return normally exactly when
    the engine answers SQLITE_OK to it. *)
Theorem transaction_helpers_send_control_statements (db : addr) (w : world) :
  db <> nullptr ->
  let c := {| Main.m_db := db |} in
  (hd_error (calls (invoke Main.beginTransaction c w))
   = Some (sqlite3_exec db "BEGIN") /\
   (returned (invoke Main.beginTransaction c w) = Normal tt <->
    fst (respond (sqlite3_exec db "BEGIN") w) = SQLITE_OK)) /\
  (hd_error (calls (invoke Main.rollbackTransaction c w))
   = Some (sqlite3_exec db "ROLLBACK") /\
   (returned (invoke Main.rollbackTransaction c w) = Normal tt <->
    fst (respond (sqlite3_exec db "ROLLBACK") w) = SQLITE_OK)) /\
  (hd_error (calls (invoke Main.commitTransaction c w))
   = Some (sqlite3_exec db "COMMIT") /\
   (returned (invoke Main.commitTransaction c w) = Normal tt <->
    fst (respond (sqlite3_exec db "COMMIT") w) = SQLITE_OK)).
Proof.
  intros Hdb c. subst c.
  unfold Main.beginTransaction, Main.rollbackTransaction,
    Main.commitTransaction.
  repeat split;
    rewrite (Main_execute_run _ _ w Hdb); cbv zeta;
    match goal with
    | |- context [respond (sqlite3_exec db ?sql) w] =>
        destruct (Z.eqb_spec (fst (respond (sqlite3_exec db sql) w)) SQLITE_OK)
    end; try easy.
Qed.

(** *** Assertions on the handle *)

(** Runs a member function to its end, whatever the engine answers. *)
Ltac run_through :=
  repeat (cbn;
          match goal with
          | |- context [respond ?c ?w] =>
              let x := fresh "x" in
              let w' := fresh "w" in
              destruct (respond c w) as [x w']
          | |- context [if ?b then _ else _] => destruct b
          end);
  cbn.

Ltac check_assertion db :=
  unfold asserts_handle, invoke, returned, Main.throw_from_statement,
    Legacy.throw_from_statement;
  cbn;
  destruct (Z.eqb_spec db nullptr) as [-> | ?];
  [ cbn; now repeat split
  | rewrite (is_null_false db) by assumption;
    run_through; repeat split; intros;
    first [discriminate | contradiction] ].

(** X3.  [execute], the three [bind]s and [step] of headers/cppsqlite.h,
    and [execute], the two [bind]s and [step] of the earlier copy, end in a
    failed assertion exactly when the object holds no handle; in that case
    they have made no native call and the engine is untouched. *)
Theorem assertion_fails_exactly_on_absent_handle
        (db stmt : addr) (w : world) (sql text : string) (index value : Z) :
  (asserts_handle db w (invoke (Main.execute sql) {| Main.m_db := db |} w) /\
   asserts_handle stmt w
     (invoke (Main.bind_int index value) {| Main.m_stmt := stmt |} w) /\
   asserts_handle stmt w
     (invoke (Main.bind_int64 index value) {| Main.m_stmt := stmt |} w) /\
   asserts_handle stmt w
     (invoke (Main.bind_string index text) {| Main.m_stmt := stmt |} w) /\
   asserts_handle stmt w (invoke Main.step {| Main.m_stmt := stmt |} w)) /\
  (asserts_handle db w (invoke (Legacy.execute sql) {| Legacy.m_db := db |} w) /\
   asserts_handle stmt w
     (invoke (Legacy.bind_int index value) {| Legacy.m_stmt := stmt |} w) /\
   asserts_handle stmt w
     (invoke (Legacy.bind_string index text) {| Legacy.m_stmt := stmt |} w) /\
   asserts_handle stmt w (invoke Legacy.step {| Legacy.m_stmt := stmt |} w)).
Proof.
  split; [split; [|split; [|split; [|split]]] | split; [|split; [|split]]].
  - unfold Main.execute. check_assertion db.
  - unfold Main.bind_int. check_assertion stmt.
  - unfold Main.bind_int64. check_assertion stmt.
  - unfold Main.bind_string. check_assertion stmt.
  - unfold Main.step. check_assertion stmt.
  - unfold Legacy.execute. check_assertion db.
  - unfold Legacy.bind_int. check_assertion stmt.
  - unfold Legacy.bind_string. check_assertion stmt.
  - unfold Legacy.step. check_assertion stmt.
Qed.

(** *** [open], [createInMemory] and the destructors *)

Lemma Legacy_open_succeeded (db : addr) (fileName : string) (w w1 : world)
      (raw : addr) :
  respond (sqlite3_open fileName) w = ((SQLITE_OK, raw), w1) ->
  invoke (Legacy.open fileName) {| Legacy.m_db := db |} w =
  mkRun (sqlite3_open fileName
           :: if is_null db then [] else [sqlite3_close db])
        (if is_null db then w1 else snd (respond (sqlite3_close db) w1))
        (Normal tt, {| Legacy.m_db := raw |}).
Proof.
  intros Hopen. unfold invoke, Legacy.open.
  answered Hopen. rewrite Z.eqb_refl. cbn.
  unfold unique_ptr_release. destruct (is_null db); cbn; [reflexivity|].
  now destruct (respond (sqlite3_close db) w1).
Qed.

(** X4.  When [sqlite3_open] answers SQLITE_OK, [open] (both copies of the
    header) returns normally holding the handle the engine stored, and its
    native calls are [sqlite3_open] followed, if the connection held a
    session before, by one [sqlite3_close] on that earlier session: reopening
    does not leak the session that was open. *)
Theorem successful_open_replaces_session
        (db : addr) (fileName : string) (w w1 : world) (raw : addr) :
  respond (sqlite3_open fileName) w = ((SQLITE_OK, raw), w1) ->
  let r := invoke (Main.open fileName) {| Main.m_db := db |} w in
  let r' := invoke (Legacy.open fileName) {| Legacy.m_db := db |} w in
  (returned r = Normal tt /\
   Main.m_db (object r) = raw /\
   calls r = sqlite3_open fileName
               :: if is_null db then [] else [sqlite3_close db]) /\
  (returned r' = Normal tt /\
   Legacy.m_db (object r') = raw /\
   calls r' = sqlite3_open fileName
                :: if is_null db then [] else [sqlite3_close db]).
Proof.
  intros Hopen r r'. subst r r'.
  rewrite (Main_open_succeeded db _ _ _ _ Hopen),
          (Legacy_open_succeeded db _ _ _ _ Hopen).
  now repeat split.
Qed.

(** X5.  [createInMemory] (both copies of the header) asks the engine to
    open [":memory:"] and nothing else.  If that answers SQLITE_OK the
    connection holds the new session; if not, an [SqlException] with the
    answer is thrown and the connection holds what it held. *)
Theorem createInMemory_opens_memory_database
        (db : addr) (w w1 : world) (result : Z) (raw : addr) :
  respond (sqlite3_open ":memory:") w = ((result, raw), w1) ->
  let r := invoke Main.createInMemory {| Main.m_db := db |} w in
  let r' := invoke Legacy.createInMemory {| Legacy.m_db := db |} w in
  (hd_error (calls r) = Some (sqlite3_open ":memory:") /\
   (result = SQLITE_OK ->
    returned r = Normal tt /\ Main.m_db (object r) = raw) /\
   (result <> SQLITE_OK ->
    (exists msg,
       returned r =
       Thrown {| Main.errorCode := result; Main.errorMessage := msg |}) /\
    Main.m_db (object r) = db)) /\
  (hd_error (calls r') = Some (sqlite3_open ":memory:") /\
   (result = SQLITE_OK ->
    returned r' = Normal tt /\ Legacy.m_db (object r') = raw) /\
   (result <> SQLITE_OK ->
    (exists msg,
       returned r' =
       Thrown {| Legacy.error := result; Legacy.message := msg |}) /\
    Legacy.m_db (object r') = db)).
Proof.
  intros Hopen r r'. subst r r'.
  unfold Main.createInMemory, Legacy.createInMemory.
  destruct (respond (sqlite3_errmsg raw) w1) as [msg w2] eqn:Hmsg.
  destruct (Z.eq_dec result SQLITE_OK) as [-> | Hfail].
  - rewrite (Main_open_succeeded db _ _ _ _ Hopen),
            (Legacy_open_succeeded db _ _ _ _ Hopen).
    now repeat split.
  - rewrite (Main_open_failed db _ _ _ _ _ _ _ Hopen Hfail Hmsg),
            (Legacy_open_failed db _ _ _ _ _ _ _ Hopen Hfail Hmsg).
    repeat split; try contradiction; now exists msg.
Qed.

(** X6.  Destroying a [Connection] calls [sqlite3_close] once on the handle
    it holds, and destroying a [Statement] calls [sqlite3_finalize] once on
    the handle it holds; on an object that holds no handle the destructor
    makes no native call.  It never throws (both copies of the header). *)
Theorem destructors_release_held_handle (db stmt : addr) (w : world) :
  let c := invoke Main.Connection_delete {| Main.m_db := db |} w in
  let s := invoke Main.Statement_delete {| Main.m_stmt := stmt |} w in
  let c' := invoke Legacy.Connection_delete {| Legacy.m_db := db |} w in
  let s' := invoke Legacy.Statement_delete {| Legacy.m_stmt := stmt |} w in
  ((returned c = Normal tt /\
    calls c = if is_null db then [] else [sqlite3_close db]) /\
   (returned s = Normal tt /\
    calls s = if is_null stmt then [] else [sqlite3_finalize stmt])) /\
  ((returned c' = Normal tt /\
    calls c' = if is_null db then [] else [sqlite3_close db]) /\
   (returned s' = Normal tt /\
    calls s' = if is_null stmt then [] else [sqlite3_finalize stmt])).
Proof.
  cbv zeta.
  unfold invoke, returned, Main.Connection_delete, Main.Statement_delete,
    Legacy.Connection_delete, Legacy.Statement_delete, unique_ptr_release.
  cbn.
  destruct (is_null db), (is_null stmt); run_through; now repeat split.
Qed.

(** *** [bind] and [reset]: what becomes of the engine's answer *)

Ltac translate :=
  unfold translates, invoke, returned, Main.throw_from_statement,
    Legacy.throw_from_statement;
  cbn;
  match goal with
  | |- context [respond ?c ?w] =>
      let rc := fresh "rc" in
      let w1 := fresh "w" in
      destruct (respond c w) as [rc w1]; cbn;
      destruct (Z.eqb_spec rc SQLITE_OK); cbn;
      [ split; intros; [now split | contradiction]
      | run_through; split; intros; [contradiction | now split] ]
  end.

(** X7.  On a prepared statement and for an index [i] with
    [0 <= i < INT_MAX], each [bind] overload makes its native bind call
    (at parameter [i + 1] in headers/cppsqlite.h, at [i] in the earlier
    copy) and returns normally if the engine answers SQLITE_OK.  On any other
    answer it throws an [SqlException] holding that answer and the message of
    the statement's session, which it finds with [sqlite3_db_handle] and
    reads with [sqlite3_errmsg]. *)
Theorem bind_translates_native_result
        (stmt i value value64 : Z) (text : string) (w : world) :
  stmt <> nullptr ->
  0 <= i < INT_MAX ->
  (translates Main.Build_SqlException stmt
     (sqlite3_bind_int stmt (i + 1) value)
     (respond (sqlite3_bind_int stmt (i + 1) value) w)
     (invoke (Main.bind_int i value) {| Main.m_stmt := stmt |} w) /\
   translates Main.Build_SqlException stmt
     (sqlite3_bind_int64 stmt (i + 1) value64)
     (respond (sqlite3_bind_int64 stmt (i + 1) value64) w)
     (invoke (Main.bind_int64 i value64) {| Main.m_stmt := stmt |} w) /\
   translates Main.Build_SqlException stmt
     (sqlite3_bind_text stmt (i + 1) text (int_of_size text) SQLITE_TRANSIENT)
     (respond (sqlite3_bind_text stmt (i + 1) text (int_of_size text)
                                 SQLITE_TRANSIENT) w)
     (invoke (Main.bind_string i text) {| Main.m_stmt := stmt |} w)) /\
  (translates Legacy.Build_SqlException stmt
     (sqlite3_bind_int stmt i value)
     (respond (sqlite3_bind_int stmt i value) w)
     (invoke (Legacy.bind_int i value) {| Legacy.m_stmt := stmt |} w) /\
   translates Legacy.Build_SqlException stmt
     (sqlite3_bind_text stmt i text (int_of_size text) SQLITE_TRANSIENT)
     (respond (sqlite3_bind_text stmt i text (int_of_size text)
                                 SQLITE_TRANSIENT) w)
     (invoke (Legacy.bind_string i text) {| Legacy.m_stmt := stmt |} w)).
Proof.
  intros Hs Hi.
  unfold Main.bind_int, Main.bind_int64, Main.bind_string,
    Legacy.bind_int, Legacy.bind_string.
  rewrite (incr_int_in_range _ Hi).
  split; [split; [|split] | split];
    unfold translates, invoke; cbn;
    rewrite (is_null_false _ Hs); translate.
Qed.

(** X8.  [reset] (both copies of the header) calls [sqlite3_reset] on the
    handle the statement holds, prepared or not, without a check; it returns
    normally if the engine answers SQLITE_OK and otherwise throws an
    [SqlException] holding the answer and the message of the statement's
    session. *)
Theorem reset_translates_native_result (stmt : addr) (w : world) :
  translates Main.Build_SqlException stmt (sqlite3_reset stmt)
    (respond (sqlite3_reset stmt) w)
    (invoke Main.reset {| Main.m_stmt := stmt |} w) /\
  translates Legacy.Build_SqlException stmt (sqlite3_reset stmt)
    (respond (sqlite3_reset stmt) w)
    (invoke Legacy.reset {| Legacy.m_stmt := stmt |} w).
Proof.
  unfold Main.reset, Legacy.reset. split; translate.
Qed.

(** *** The column getters *)

(** X9.  [getInt] and [getInt64] (both copies of the header) and [rowid] of
    the earlier copy make one native call on the handle held, with no check,
    and return the engine's answer as it is; they never throw and never fail
    an assertion. *)
Theorem integer_getters_return_engine_answer
        (db stmt column : Z) (w : world) :
  let answers {X S} (c : native) (a : Z * world)
              (r : run world (outcome X Z * S)) :=
    returned r = Normal (fst a) /\ calls r = [c] /\ after r = snd a in
  (answers (sqlite3_column_int stmt column)
     (respond (sqlite3_column_int stmt column) w)
     (invoke (Main.getInt column) {| Main.m_stmt := stmt |} w) /\
   answers (sqlite3_column_int64 stmt column)
     (respond (sqlite3_column_int64 stmt column) w)
     (invoke (Main.getInt64 column) {| Main.m_stmt := stmt |} w)) /\
  (answers (sqlite3_column_int stmt column)
     (respond (sqlite3_column_int stmt column) w)
     (invoke (Legacy.getInt column) {| Legacy.m_stmt := stmt |} w) /\
   answers (sqlite3_column_int64 stmt column)
     (respond (sqlite3_column_int64 stmt column) w)
     (invoke (Legacy.getInt64 column) {| Legacy.m_stmt := stmt |} w) /\
   answers (sqlite3_last_insert_rowid db)
     (respond (sqlite3_last_insert_rowid db) w)
     (invoke Legacy.rowid {| Legacy.m_db := db |} w)).
Proof.
  cbv zeta.
  unfold invoke, returned, Main.getInt, Main.getInt64, Legacy.getInt,
    Legacy.getInt64, Legacy.rowid.
  run_through. now repeat split.
Qed.

(** X10.  [getString] (both copies of the header) makes one
    [sqlite3_column_text] call and always returns normally: the text the
    pointer addresses, or the empty string when the pointer is null.  It
    never throws, never fails an assertion and never reads through a null
    pointer. *)
Theorem getString_returns_text_or_empty (stmt column : Z) (w : world) :
  let c := sqlite3_column_text stmt column in
  let text := match fst (respond c w) with
              | Some t => t
              | None => EmptyString
              end in
  let r := invoke (Main.getString column) {| Main.m_stmt := stmt |} w in
  let r' := invoke (Legacy.getString column) {| Legacy.m_stmt := stmt |} w in
  (returned r = Normal text /\ calls r = [c]) /\
  (returned r' = Normal text /\ calls r' = [c]).
Proof.
  cbv zeta. unfold invoke, returned, Main.getString, Legacy.getString. cbn.
  destruct (respond (sqlite3_column_text stmt column) w) as [[t|] w1];
    now repeat split.
Qed.

Lemma substring_prefix (n : nat) (s : string) :
  (n <= String.length s)%nat -> prefix (substring 0 n s) s = true.
Proof.
  intro Hn. apply prefix_correct.
  now rewrite substring_prefix_length.
Qed.

(** X11.  [getBlob] when the engine hands back a pointer that is not null,
    addressing the bytes [buf], together with the length [dataSize].  What is
    returned is always a prefix of [buf], [dataSize] bytes long; the call
    returns normally exactly when [0 <= dataSize <= length buf], and is
    undefined behaviour (a read outside [buf]) otherwise.  It never throws
    and never fails an assertion. *)
Theorem getBlob_returns_prefix_of_buffer
        (stmt column : Z) (w w1 w2 : world) (dataSize : Z) (buf : string) :
  respond (sqlite3_column_bytes stmt column) w = (dataSize, w1) ->
  respond (sqlite3_column_blob stmt column) w1 = (Some buf, w2) ->
  let r := invoke (Main.getBlob column) {| Main.m_stmt := stmt |} w in
  let fits := 0 <= dataSize <= Z.of_nat (String.length buf) in
  (fits <-> exists bytes, returned r = Normal bytes) /\
  (~ fits <-> returned r = Undefined) /\
  (forall bytes,
     returned r = Normal bytes ->
     prefix bytes buf = true /\ Z.of_nat (String.length bytes) = dataSize).
Proof.
  intros Hbytes Hblob r fits. subst r fits.
  unfold invoke, returned, Main.getBlob.
  answered Hbytes. answered Hblob.
  destruct (Z.leb_spec 0 dataSize) as [Hlo | Hlo];
    [destruct (Z.leb_spec dataSize (Z.of_nat (String.length buf)))
       as [Hhi | Hhi]|];
    cbn.
  - split; [|split].
    + split; [eauto | intros _; lia].
    + split; [lia | discriminate].
    + intros bytes [= <-]. split.
      * apply substring_prefix. lia.
      * rewrite substring_prefix_length; lia.
  - split; [|split].
    + split; [lia | intros [bytes Habs]; discriminate].
    + split; [reflexivity | lia].
    + discriminate.
  - split; [|split].
    + split; [lia | intros [bytes Habs]; discriminate].
    + split; [reflexivity | lia].
    + discriminate.
Qed.

(** *** Text lengths *)

(** X12.  For texts of at most [INT_MAX] bytes the length the wrapper hands
    to the engine is the length of the text: [prepare] passes the length of
    the SQL text as [nByte] of [sqlite3_prepare_v2], and the text [bind]
    passes the length of the value to [sqlite3_bind_text], with
    SQLITE_TRANSIENT so that the engine copies the bytes (both copies of the
    header; the index again [i + 1] in one and [i] in the other). *)
Theorem text_length_handed_to_engine
        (conn old stmt i : Z) (sql text : string) (w : world) :
  Z.of_nat (String.length sql) <= INT_MAX ->
  Z.of_nat (String.length text) <= INT_MAX ->
  stmt <> nullptr ->
  0 <= i < INT_MAX ->
  (hd_error (calls (invoke (Main.prepare {| Main.m_db := conn |} sql)
                           {| Main.m_stmt := old |} w))
   = Some (sqlite3_prepare_v2 conn sql (Z.of_nat (String.length sql))) /\
   hd_error (calls (invoke (Main.bind_string i text)
                           {| Main.m_stmt := stmt |} w))
   = Some (sqlite3_bind_text stmt (i + 1) text
                             (Z.of_nat (String.length text))
                             SQLITE_TRANSIENT)) /\
  (hd_error (calls (invoke (Legacy.prepare {| Legacy.m_db := conn |} sql)
                           {| Legacy.m_stmt := old |} w))
   = Some (sqlite3_prepare_v2 conn sql (Z.of_nat (String.length sql))) /\
   hd_error (calls (invoke (Legacy.bind_string i text)
                           {| Legacy.m_stmt := stmt |} w))
   = Some (sqlite3_bind_text stmt i text (Z.of_nat (String.length text))
                             SQLITE_TRANSIENT)).
Proof.
  intros Hsql Htext Hs Hi.
  unfold invoke, Main.prepare, Main.bind_string, Legacy.prepare,
    Legacy.bind_string, Main.ptr, Legacy.data.
  rewrite (incr_int_in_range _ Hi), (int_of_size_small _ Hsql),
    (int_of_size_small _ Htext).
  cbn. rewrite (is_null_false _ Hs). cbn.
  repeat split;
    match goal with
    | |- context [respond ?c w] => now destruct (respond c w)
    end.
Qed.

(** *** Handles handed out and handles released *)

Ltac balance :=
  intros [handle] w;
  unfold history, invoke, object, unique_ptr_release;
  cbn;
  match goal with
  | |- context [respond ?c w] =>
      let rc := fresh "rc" in
      let raw := fresh "raw" in
      let w1 := fresh "w" in
      let Hh := fresh "Hh" in
      let Hr := fresh "Hr" in
      destruct (respond c w) as [[rc raw] w1]; cbn;
      destruct (rc =? SQLITE_OK); cbn;
      unfold nonnull, is_null, nullptr;
      destruct (handle =? 0) eqn:Hh; destruct (raw =? 0) eqn:Hr;
      repeat (cbn; unfold nonnull, is_null, nullptr; rewrite ?Hh, ?Hr;
              try match goal with
                  | |- context [respond ?c' ?w'] =>
                      destruct (respond c' w') as [? ?]
                  end)
  end;
  first [reflexivity | apply perm_swap].

Lemma Main_open_balanced (fileName : string) :
  balanced session_opened session_closed
           (fun c => nonnull (Main.m_db c)) (Main.open fileName).
Proof. unfold Main.open. balance. Qed.

Lemma Legacy_open_balanced (fileName : string) :
  balanced session_opened session_closed
           (fun c => nonnull (Legacy.m_db c)) (Legacy.open fileName).
Proof. unfold Legacy.open. balance. Qed.

Lemma Main_prepare_balanced (connection : Main.Connection) (sql : string) :
  balanced statement_compiled statement_finalized
           (fun s => nonnull (Main.m_stmt s)) (Main.prepare connection sql).
Proof. unfold Main.prepare. balance. Qed.

Lemma Legacy_prepare_balanced (connection : Legacy.Connection) (sql : string) :
  balanced statement_compiled statement_finalized
           (fun s => nonnull (Legacy.m_stmt s)) (Legacy.prepare connection sql).
Proof. unfold Legacy.prepare. balance. Qed.

(** X13.  One call of [open] or [createInMemory] (both copies of the
    header), whatever the engine answers and however the call ends, accounts
    for every session handle: the handles it called [sqlite3_close] on,
    together with the handle the connection holds afterwards, are the handle
    it held before together with the handle [sqlite3_open] stored.  None is
    dropped without a close, none is closed twice, and none is closed that
    the connection did not own. *)
Theorem open_accounts_for_sessions (fileName : string) :
  (balanced session_opened session_closed
            (fun c => nonnull (Main.m_db c)) (Main.open fileName) /\
   balanced session_opened session_closed
            (fun c => nonnull (Main.m_db c)) Main.createInMemory) /\
  (balanced session_opened session_closed
            (fun c => nonnull (Legacy.m_db c)) (Legacy.open fileName) /\
   balanced session_opened session_closed
            (fun c => nonnull (Legacy.m_db c)) Legacy.createInMemory).
Proof.
  repeat split;
    first [apply Main_open_balanced | apply Legacy_open_balanced].
Qed.

(** X14.  One call of [prepare] (both copies of the header), whatever the
    engine answers and however the call ends, accounts for every statement
    handle: the handles it called [sqlite3_finalize] on, together with the
    handle the statement holds afterwards, are the handle it held before
    together with the handle [sqlite3_prepare_v2] stored. *)
Theorem prepare_accounts_for_statements
        (connection : Main.Connection) (connection' : Legacy.Connection)
        (sql : string) :
  balanced statement_compiled statement_finalized
           (fun s => nonnull (Main.m_stmt s)) (Main.prepare connection sql) /\
  balanced statement_compiled statement_finalized
           (fun s => nonnull (Legacy.m_stmt s))
           (Legacy.prepare connection' sql).
Proof.
  split; [apply Main_prepare_balanced | apply Legacy_prepare_balanced].
Qed.

(** *** A whole life of a connection, and of a statement *)

Lemma Main_throw_from_statement_quiet {A} (result : Z) :
  keeps_handles (@Main.throw_from_statement A result).
Proof. unfold Main.throw_from_statement. quiet. Qed.

Lemma connection_call_balanced (u : Usage.on_connection) :
  balanced session_opened session_closed
           (fun c => nonnull (Main.m_db c)) (Usage.connection_call u).
Proof.
  destruct u; cbn [Usage.connection_call]; apply balanced_ended;
    try apply Main_open_balanced;
    apply balanced_quiet;
    first [apply Main_execute_keeps | apply Main_lastRowId_keeps | idtac];
    unfold Main.beginTransaction, Main.rollbackTransaction,
      Main.commitTransaction, Main.execute, Main.lastRowId;
    quiet.
Qed.

Lemma statement_call_balanced (u : Usage.on_statement) :
  balanced statement_compiled statement_finalized
           (fun s => nonnull (Main.m_stmt s)) (Usage.statement_call u).
Proof.
  pose proof (@Main_throw_from_statement_quiet unit).
  pose proof (@Main_throw_from_statement_quiet bool).
  destruct u; cbn [Usage.statement_call]; apply balanced_ended;
    try apply Main_prepare_balanced;
    apply balanced_quiet;
    first [ apply Main_bind_int_keeps | apply Main_bind_int64_keeps
          | apply Main_bind_string_keeps | apply Main_step_keeps
          | apply Main_reset_keeps | apply Main_getInt_keeps
          | apply Main_getInt64_keeps | apply Main_getString_keeps
          | apply Main_getBlob_keeps | idtac ];
    unfold Main.bind_int, Main.bind_int64, Main.bind_string, Main.step,
      Main.reset, Main.getInt, Main.getInt64, Main.getString, Main.getBlob;
    quiet.
Qed.

Lemma Main_Connection_delete_history (c : Main.Connection) (w : world) :
  flat_map session_closed (trace (Main.Connection_delete c) w)
  = nonnull (Main.m_db c) /\
  flat_map session_opened (trace (Main.Connection_delete c) w) = [].
Proof.
  destruct c as [db].
  unfold Main.Connection_delete, unique_ptr_release, nonnull. cbn.
  destruct (is_null db); run_through; now split.
Qed.

Lemma Main_Statement_delete_history (s : Main.Statement) (w : world) :
  flat_map statement_finalized (trace (Main.Statement_delete s) w)
  = nonnull (Main.m_stmt s) /\
  flat_map statement_compiled (trace (Main.Statement_delete s) w) = [].
Proof.
  destruct s as [stmt].
  unfold Main.Statement_delete, unique_ptr_release, nonnull. cbn.
  destruct (is_null stmt); run_through; now split.
Qed.

(** X15.  A [Connection] of headers/cppsqlite.h is created, has any
    member functions called on it in any order with any arguments (the caller
    catching the exceptions), and is destroyed.  If no assertion ended the
    process on the way, then against every engine the session handles
    [sqlite3_close] was called on are, counted with multiplicity, the
    non-null handles [sqlite3_open] stored: every session the engine handed
    out is closed, and if the engine never hands out the same handle twice,
    none is closed twice. *)
Theorem connection_lifetime_closes_what_it_opened
        (us : list Usage.on_connection) (w : world) :
  let life := lifetime (map Usage.connection_call us)
                       Main.Connection_delete Main.Connection_new in
  fst (yield (exec life w)) = true ->
  Permutation (flat_map session_closed (trace life w))
              (flat_map session_opened (trace life w)) /\
  (NoDup (flat_map session_opened (trace life w)) ->
   NoDup (flat_map session_closed (trace life w))).
Proof.
  intros life Halive.
  assert (Hlife : Permutation (flat_map session_closed (trace life w))
                              (flat_map session_opened (trace life w))).
  { apply (lifetime_balanced _ _ (fun c => nonnull (Main.m_db c))).
    - apply Forall_forall. intros m Hin.
      apply in_map_iff in Hin as (u & <- & _).
      apply connection_call_balanced.
    - reflexivity.
    - apply Main_Connection_delete_history.
    - exact Halive. }
  split; [exact Hlife|].
  apply Permutation_NoDup. now symmetry.
Qed.

(** X16.  The same for a [Statement] of headers/cppsqlite.h: created, used
    by any member function calls ([prepare] against any connections, binds,
    steps, resets, getters), then destroyed.  If neither a failed assertion
    nor undefined behaviour ended the process on the way, the statement
    handles [sqlite3_finalize] was called on are, counted with multiplicity,
    the non-null handles [sqlite3_prepare_v2] stored. *)
Theorem statement_lifetime_finalizes_what_it_compiled
        (us : list Usage.on_statement) (w : world) :
  let life := lifetime (map Usage.statement_call us)
                       Main.Statement_delete Main.Statement_new in
  fst (yield (exec life w)) = true ->
  Permutation (flat_map statement_finalized (trace life w))
              (flat_map statement_compiled (trace life w)) /\
  (NoDup (flat_map statement_compiled (trace life w)) ->
   NoDup (flat_map statement_finalized (trace life w))).
Proof.
  intros life Halive.
  assert (Hlife : Permutation (flat_map statement_finalized (trace life w))
                              (flat_map statement_compiled (trace life w))).
  { apply (lifetime_balanced _ _ (fun s => nonnull (Main.m_stmt s))).
    - apply Forall_forall. intros m Hin.
      apply in_map_iff in Hin as (u & <- & _).
      apply statement_call_balanced.
    - reflexivity.
    - apply Main_Statement_delete_history.
    - exact Halive. }
  split; [exact Hlife|].
  apply Permutation_NoDup. now symmetry.
Qed.

(** *** What the other member functions never do *)

Lemma Legacy_throw_from_statement_quiet {A} (result : Z) :
  keeps_handles (@Legacy.throw_from_statement A result).
Proof. unfold Legacy.throw_from_statement. quiet. Qed.

Lemma Legacy_throw_from_statement_keeps {A} (result : Z) :
  keeps_fields (@Legacy.throw_from_statement A result).
Proof. unfold Legacy.throw_from_statement. frame. Qed.

(** X17.  Apart from [open], [createInMemory], [prepare] and the
    destructors, no member function of either copy of the header ever calls
    [sqlite3_open], [sqlite3_close], [sqlite3_prepare_v2] or
    [sqlite3_finalize], whatever the engine answers: executing, binding,
    stepping, resetting and reading columns neither create nor release a
    native handle, so a [reset] or a failed [step] never discards the
    compiled statement. *)
Theorem only_open_and_prepare_create_or_release_handles
        (sql text : string) (index value column : Z) :
  ((keeps_handles (Main.execute sql) /\
    keeps_handles Main.lastRowId /\
    keeps_handles Main.beginTransaction /\
    keeps_handles Main.rollbackTransaction /\
    keeps_handles Main.commitTransaction) /\
   (keeps_handles (Main.bind_int index value) /\
    keeps_handles (Main.bind_int64 index value) /\
    keeps_handles (Main.bind_string index text) /\
    keeps_handles Main.step /\
    keeps_handles Main.reset) /\
   (keeps_handles (Main.getInt column) /\
    keeps_handles (Main.getInt64 column) /\
    keeps_handles (Main.getString column) /\
    keeps_handles (Main.getBlob column))) /\
  ((keeps_handles (Legacy.execute sql) /\
    keeps_handles Legacy.rowid) /\
   (keeps_handles (Legacy.bind_int index value) /\
    keeps_handles (Legacy.bind_string index text) /\
    keeps_handles Legacy.step /\
    keeps_handles Legacy.reset) /\
   (keeps_handles (Legacy.getInt column) /\
    keeps_handles (Legacy.getInt64 column) /\
    keeps_handles (Legacy.getString column))).
Proof.
  pose proof (@Main_throw_from_statement_quiet unit).
  pose proof (@Main_throw_from_statement_quiet bool).
  pose proof (@Legacy_throw_from_statement_quiet unit).
  pose proof (@Legacy_throw_from_statement_quiet bool).
  unfold Main.beginTransaction, Main.rollbackTransaction,
    Main.commitTransaction, Main.execute, Main.lastRowId, Main.bind_int,
    Main.bind_int64, Main.bind_string, Main.step, Main.reset, Main.getInt,
    Main.getInt64, Main.getString, Main.getBlob, Legacy.execute, Legacy.rowid,
    Legacy.bind_int, Legacy.bind_string, Legacy.step, Legacy.reset,
    Legacy.getInt, Legacy.getInt64, Legacy.getString.
  repeat match goal with |- _ /\ _ => split end; quiet.
Qed.

(** X18.  In the earlier copy of the header too, [execute], [rowid], the
    two [bind]s, [step], [reset] and the getters hand the object back with
    the handle it had, against every engine and however the call ends. *)
Theorem legacy_handle_changes_only_in_open_prepare
        (c : Legacy.Connection) (s : Legacy.Statement) (w : world)
        (sql text : string) (index value column : Z) :
  (object (invoke (Legacy.execute sql) c w) = c /\
   object (invoke Legacy.rowid c w) = c) /\
  (object (invoke (Legacy.bind_int index value) s w) = s /\
   object (invoke (Legacy.bind_string index text) s w) = s) /\
  (object (invoke Legacy.step s w) = s /\
   object (invoke Legacy.reset s w) = s) /\
  (object (invoke (Legacy.getInt column) s w) = s /\
   object (invoke (Legacy.getInt64 column) s w) = s /\
   object (invoke (Legacy.getString column) s w) = s).
Proof.
  pose proof (@Legacy_throw_from_statement_keeps unit).
  pose proof (@Legacy_throw_from_statement_keeps bool).
  repeat match goal with |- _ /\ _ => split end;
    match goal with
    | |- object (invoke ?m ?self w) = ?self =>
        revert self w; change (keeps_fields m)
    end;
    unfold Legacy.execute, Legacy.rowid, Legacy.bind_int, Legacy.bind_string,
      Legacy.step, Legacy.reset, Legacy.getInt, Legacy.getInt64,
      Legacy.getString;
    frame.
Qed.

(** X19.  In the earlier copy of the header too, an [open] for which
    [sqlite3_open] answers anything but SQLITE_OK throws an [SqlException]
    with that answer and leaves the connection holding what it held; the next
    [open] for which the engine answers SQLITE_OK returns normally and leaves
    it holding the new handle. *)
Theorem legacy_failed_open_leaves_handle_as_it_was
        (db : addr) (fileName : string) (w w1 : world) (result : Z)
        (raw : addr) :
  respond (sqlite3_open fileName) w = ((result, raw), w1) ->
  result <> SQLITE_OK ->
  let r := invoke (Legacy.open fileName) {| Legacy.m_db := db |} w in
  (exists msg,
     returned r = Thrown {| Legacy.error := result; Legacy.message := msg |}) /\
  Legacy.m_db (object r) = db /\
  forall (fileName' : string) (raw' : addr) (w' : world),
    respond (sqlite3_open fileName') (after r) = ((SQLITE_OK, raw'), w') ->
    let r' := invoke (Legacy.open fileName') (object r) (after r) in
    returned r' = Normal tt /\ Legacy.m_db (object r') = raw'.
Proof.
  intros Hopen Hfail r. subst r.
  destruct (respond (sqlite3_errmsg raw) w1) as [msg w2] eqn:Hmsg.
  rewrite (Legacy_open_failed _ _ _ _ _ _ _ _ Hopen Hfail Hmsg).
  unfold returned, object. cbn [calls after yield fst snd Legacy.m_db].
  split; [now exists msg|]. split; [reflexivity|].
  intros fileName' raw' w' Hopen'.
  now rewrite (Legacy_open_succeeded _ _ _ _ _ Hopen').
Qed.

End Further.

(* ================================================================= *)
(** ** The properties at work on the small engine *)

Import Mock.

Example scenario_handles :
  Main.m_db (object Scenario.connected) = 1 /\
  Main.m_stmt (object Scenario.compiled) = 2 /\
  Legacy.m_stmt (object Scenario.legacy_compiled) = 2.
Proof. now repeat split. Qed.

(** C1, as stated, fails on cppsqlite/headers/cppsqlite.h: there
    [bind(0, 7)] on a compiled statement calls [sqlite3_bind_int] with
    parameter number 0, not 1. *)
Lemma legacy_bind_passes_index_through :
  let s := object Scenario.legacy_compiled in
  let w := after Scenario.legacy_compiled in
  let r := invoke (Legacy.bind_int 0 7) s w in
  filter is_bind_call (calls r) = [sqlite3_bind_int (Legacy.m_stmt s) 0 7] /\
  filter is_bind_call (calls r) <> [sqlite3_bind_int (Legacy.m_stmt s) (0 + 1) 7].
Proof. split; [reflexivity | discriminate]. Qed.

Lemma bind_native_index_witness :
  let stmt := Main.m_stmt (object Scenario.compiled) in
  let w := after Scenario.compiled in
  (stmt <> nullptr /\ 0 <= 0 < INT_MAX) /\
  (filter is_bind_call
     (calls (invoke (Main.bind_int 0 7) {| Main.m_stmt := stmt |} w)) =
   [sqlite3_bind_int stmt (0 + 1) 7] /\
   filter is_bind_call
     (calls (invoke (Main.bind_int64 0 8) {| Main.m_stmt := stmt |} w)) =
   [sqlite3_bind_int64 stmt (0 + 1) 8] /\
   filter is_bind_call
     (calls (invoke (Main.bind_string 0 "alice") {| Main.m_stmt := stmt |} w)) =
   [sqlite3_bind_text stmt (0 + 1) "alice" (int_of_size "alice")
                      SQLITE_TRANSIENT]) /\
  (filter is_bind_call
     (calls (invoke (Legacy.bind_int 0 7) {| Legacy.m_stmt := stmt |} w)) =
   [sqlite3_bind_int stmt 0 7] /\
   filter is_bind_call
     (calls (invoke (Legacy.bind_string 0 "alice")
                    {| Legacy.m_stmt := stmt |} w)) =
   [sqlite3_bind_text stmt 0 "alice" (int_of_size "alice") SQLITE_TRANSIENT]).
Proof.
  cbv zeta. split.
  - split; [discriminate | unfold INT_MAX; lia].
  - apply (bind_native_index 2 0 7 8 "alice" (after Scenario.compiled)).
    + discriminate.
    + unfold INT_MAX; lia.
Defined.

Lemma step_translates_native_result_witness :
  let stmt := Main.m_stmt (object Scenario.compiled) in
  let w := after Scenario.compiled in
  let result := fst (respond (sqlite3_step stmt) w) in
  (stmt <> nullptr /\ SQLITE_ROW <> SQLITE_DONE) /\
  let r := invoke Main.step {| Main.m_stmt := stmt |} w in
  let r' := invoke Legacy.step {| Legacy.m_stmt := stmt |} w in
  ((returned r = Normal true <-> result = SQLITE_ROW) /\
   (returned r = Normal false <-> result = SQLITE_DONE) /\
   (result <> SQLITE_ROW -> result <> SQLITE_DONE ->
    returned r =
    Thrown {| Main.errorCode := result; Main.errorMessage := "not an error" |})) /\
  ((returned r' = Normal true <-> result = SQLITE_ROW) /\
   (returned r' = Normal false <-> result = SQLITE_DONE) /\
   (result <> SQLITE_ROW -> result <> SQLITE_DONE ->
    returned r' =
    Thrown {| Legacy.error := result; Legacy.message := "not an error" |})).
Proof.
  cbv zeta. split.
  - split; discriminate.
  - eapply (step_translates_native_result 2 (after Scenario.compiled)).
    + discriminate.
    + discriminate.
    + reflexivity.
    + reflexivity.
    + reflexivity.
Defined.

Example scenario_on_row :
  returned Scenario.on_row = Normal true /\
  Main.m_stmt (object Scenario.on_row) = 2.
Proof. now split. Qed.

Lemma null_column_reads_as_empty_witness :
  let stmt := Main.m_stmt (object Scenario.on_row) in
  let w := after Scenario.on_row in
  (fst (respond (sqlite3_column_text stmt 0) w) = None /\
   returned (invoke (Main.getString 0) {| Main.m_stmt := stmt |} w) =
   Normal EmptyString /\
   returned (invoke (Legacy.getString 0) {| Legacy.m_stmt := stmt |} w) =
   Normal EmptyString) /\
  (fst (respond (sqlite3_column_blob stmt 0)
                (snd (respond (sqlite3_column_bytes stmt 0) w))) = None /\
   returned (invoke (Main.getBlob 0) {| Main.m_stmt := stmt |} w) =
   Normal EmptyString).
Proof.
  cbv zeta.
  destruct (null_column_reads_as_empty 2 0 (after Scenario.on_row))
    as [Htext Hblob].
  split.
  - split; [reflexivity | apply Htext; reflexivity].
  - split; [reflexivity | apply Hblob; reflexivity].
Defined.

Lemma getBlob_reads_length_then_pointer_witness :
  let stmt := Main.m_stmt (object Scenario.on_row) in
  let w := after Scenario.on_row in
  (respond (sqlite3_column_bytes stmt 1) w = (5, w) /\
   respond (sqlite3_column_blob stmt 1) w = (Some "alice", w) /\
   0 <= 5 <= Z.of_nat (String.length "alice")) /\
  let r := invoke (Main.getBlob 1) {| Main.m_stmt := stmt |} w in
  calls r = [sqlite3_column_bytes stmt 1; sqlite3_column_blob stmt 1] /\
  exists bytes : string,
    returned r = Normal bytes /\
    bytes = substring 0 (Z.to_nat 5) "alice" /\
    Z.of_nat (String.length bytes) = 5.
Proof.
  cbv zeta.
  assert (Hsize : 0 <= 5 <= Z.of_nat (String.length "alice")) by (cbn; lia).
  split.
  - split; [reflexivity | split; [reflexivity | exact Hsize]].
  - destruct (getBlob_reads_length_then_pointer
                2 1 (after Scenario.on_row) (after Scenario.on_row)
                (after Scenario.on_row) 5 (Some "alice")
                eq_refl eq_refl) as [Horder Hbytes].
    split; [exact Horder | exact (Hbytes "alice" eq_refl Hsize)].
Defined.

(** C3, as stated, fails on a connection that is already open: the failed
    [open] leaves it holding the session it held. *)
Lemma failed_open_keeps_open_handle :
  let c := object Scenario.connected in
  let w := after Scenario.connected in
  let r := invoke (Main.open Scenario.missing) c w in
  fst (fst (respond (sqlite3_open Scenario.missing) w)) <> SQLITE_OK /\
  returned r =
  Thrown {| Main.errorCode := 14;
            Main.errorMessage := "unable to open database file" |} /\
  Main.m_db (object r) = 1 /\
  Main.m_db (object r) <> nullptr.
Proof. repeat split; discriminate. Qed.

Lemma failed_open_closes_its_handle_once_witness :
  let w := Mock.fresh in
  (respond (sqlite3_open Scenario.missing) w
   = ((SQLITE_CANTOPEN, 1),
      mkState 2 [1] [] 1 "unable to open database file") /\
   SQLITE_CANTOPEN <> SQLITE_OK /\ 1 <> nullptr) /\
  let r := invoke (Main.open Scenario.missing) Main.Connection_new w in
  let r' := invoke (Legacy.open Scenario.missing) Legacy.Connection_new w in
  ((exists e, returned r = Thrown e) /\
   calls r = [sqlite3_open Scenario.missing; sqlite3_errmsg 1; sqlite3_close 1] /\
   filter (is_close_of 1) (calls r) = [sqlite3_close 1]) /\
  ((exists e, returned r' = Thrown e) /\
   calls r' = [sqlite3_open Scenario.missing; sqlite3_errmsg 1; sqlite3_close 1] /\
   filter (is_close_of 1) (calls r') = [sqlite3_close 1]).
Proof.
  cbv zeta.
  assert (Hfail : SQLITE_CANTOPEN <> SQLITE_OK) by discriminate.
  assert (Hraw : 1 <> nullptr) by discriminate.
  split; [repeat split; assumption|].
  destruct (failed_open_closes_its_handle_once
              (E := engine)
              nullptr Scenario.missing Mock.fresh _ SQLITE_CANTOPEN 1
              eq_refl Hfail)
    as [(Hthrow & Hcalls & Honce) (Hthrow' & Hcalls' & Honce')].
  split; (split; [assumption | split; [assumption | auto]]).
Defined.

Lemma failed_open_leaves_handle_as_it_was_witness :
  let w := Mock.fresh in
  (respond (sqlite3_open Scenario.missing) w
   = ((SQLITE_CANTOPEN, 1),
      mkState 2 [1] [] 1 "unable to open database file") /\
   SQLITE_CANTOPEN <> SQLITE_OK) /\
  let r := invoke (Main.open Scenario.missing) Main.Connection_new w in
  ((exists msg,
      returned r =
      Thrown {| Main.errorCode := SQLITE_CANTOPEN; Main.errorMessage := msg |}) /\
   Main.m_db (object r) = nullptr) /\
  (respond (sqlite3_open ":memory:") (after r)
   = ((SQLITE_OK, 2), mkState 3 [2] [] 1 "not an error")) /\
  let r' := invoke (Main.open ":memory:") (object r) (after r) in
  returned r' = Normal tt /\ Main.m_db (object r') = 2.
Proof.
  cbv zeta.
  assert (Hfail : SQLITE_CANTOPEN <> SQLITE_OK) by discriminate.
  destruct (failed_open_leaves_handle_as_it_was
              (E := engine)
              nullptr Scenario.missing Mock.fresh _ SQLITE_CANTOPEN 1
              eq_refl Hfail)
    as (Hthrow & Hobject & Hnext).
  split; [split; [reflexivity | exact Hfail]|].
  split; [split; assumption|].
  split; [reflexivity|].
  exact (Hnext ":memory:" 2 _ eq_refl).
Defined.

(** C4, as stated, fails on a statement that already holds a compiled
    handle: in a [prepare] that succeeds, the new handle 3 is stored before
    [sqlite3_finalize] is called on the old handle 2; the release does not
    come first. *)
Lemma prepare_stores_new_handle_before_release :
  let conn := object Scenario.connected in
  let old := object Scenario.compiled in
  let w := after Scenario.compiled in
  let compile :=
    sqlite3_prepare_v2 (Main.m_db conn) Scenario.insertion
                       (int_of_size Scenario.insertion) in
  let s := invoke (MainSteps.prepare conn Scenario.insertion) (old, []) w in
  let r := invoke (Main.prepare conn Scenario.insertion) old w in
  Main.m_stmt old = 2 /\
  returned r = Normal tt /\
  Main.m_stmt (object r) = 3 /\
  native_calls (snd (object s)) = calls r /\
  snd (object s) = [Calls compile; Stores 3; Calls (sqlite3_finalize 2)] /\
  snd (object s) <> [Calls compile; Calls (sqlite3_finalize 2); Stores 3].
Proof. repeat split; discriminate. Qed.

Lemma prepare_stores_then_releases_witness :
  let conn := Main.m_db (object Scenario.connected) in
  let old := Main.m_stmt (object Scenario.compiled) in
  let w := after Scenario.compiled in
  let bad := Scenario.garbled in
  let good := Scenario.insertion in
  let failed := mkState 4 [1] [3; 2] 1 "syntax error" in
  let wrong := sqlite3_prepare_v2 conn bad (int_of_size bad) in
  let right := sqlite3_prepare_v2 conn good (int_of_size good) in
  (* a compilation that fails and leaves a handle behind *)
  ((Halfway.answer wrong w = ((SQLITE_ERROR, 3), failed) /\
    Halfway.answer (sqlite3_errmsg conn) failed = ("syntax error", failed) /\
    SQLITE_ERROR <> SQLITE_OK /\ 3 <> nullptr) /\
   let r := invoke (E := Halfway.engine)
                   (Main.prepare {| Main.m_db := conn |} bad)
                   {| Main.m_stmt := old |} w in
   let s := invoke (E := Halfway.engine)
                   (MainSteps.prepare {| Main.m_db := conn |} bad)
                   ({| Main.m_stmt := old |}, []) w in
   let r' := invoke (E := Halfway.engine)
                    (Legacy.prepare {| Legacy.m_db := conn |} bad)
                    {| Legacy.m_stmt := old |} w in
   let s' := invoke (E := Halfway.engine)
                    (LegacySteps.prepare {| Legacy.m_db := conn |} bad)
                    ({| Legacy.m_stmt := old |}, []) w in
   (returned r =
    Thrown {| Main.errorCode := SQLITE_ERROR;
              Main.errorMessage := "syntax error" |} /\
    Main.m_stmt (object r) = old /\
    calls r = [wrong; sqlite3_errmsg conn; sqlite3_finalize 3] /\
    snd (object s) =
    [Calls wrong; Calls (sqlite3_errmsg conn); Calls (sqlite3_finalize 3)]) /\
   (returned r' =
    Thrown {| Legacy.error := SQLITE_ERROR;
              Legacy.message := "syntax error" |} /\
    Legacy.m_stmt (object r') = old /\
    calls r' = [wrong; sqlite3_errmsg conn; sqlite3_finalize 3] /\
    snd (object s') =
    [Calls wrong; Calls (sqlite3_errmsg conn); Calls (sqlite3_finalize 3)])) /\
  (* a compilation that succeeds on a statement that holds a handle *)
  ((fst (Halfway.answer right w) = (SQLITE_OK, 3) /\ old <> nullptr) /\
   let r := invoke (E := Halfway.engine)
                   (Main.prepare {| Main.m_db := conn |} good)
                   {| Main.m_stmt := old |} w in
   let s := invoke (E := Halfway.engine)
                   (MainSteps.prepare {| Main.m_db := conn |} good)
                   ({| Main.m_stmt := old |}, []) w in
   let r' := invoke (E := Halfway.engine)
                    (Legacy.prepare {| Legacy.m_db := conn |} good)
                    {| Legacy.m_stmt := old |} w in
   let s' := invoke (E := Halfway.engine)
                    (LegacySteps.prepare {| Legacy.m_db := conn |} good)
                    ({| Legacy.m_stmt := old |}, []) w in
   (returned r = Normal tt /\
    Main.m_stmt (object r) = 3 /\
    calls r = [right; sqlite3_finalize old] /\
    snd (object s) = [Calls right; Stores 3; Calls (sqlite3_finalize old)]) /\
   (returned r' = Normal tt /\
    Legacy.m_stmt (object r') = 3 /\
    calls r' = [right; sqlite3_finalize old] /\
    snd (object s') = [Calls right; Stores 3; Calls (sqlite3_finalize old)])).
Proof.
  cbv zeta.
  assert (Hfail : SQLITE_ERROR <> SQLITE_OK) by discriminate.
  assert (Hraw : 3 <> nullptr) by discriminate.
  assert (Hold : 2 <> nullptr) by discriminate.
  split.
  - split; [exact (conj eq_refl (conj eq_refl (conj Hfail Hraw)))|].
    exact (proj1 (proj2 (prepare_stores_then_releases
                           (H := header) (E := Halfway.engine)
                           1 2 Scenario.garbled (after Scenario.compiled)
                           (mkState 4 [1] [3; 2] 1 "syntax error")
                           (mkState 4 [1] [3; 2] 1 "syntax error")
                           SQLITE_ERROR 3 "syntax error" eq_refl eq_refl))
                 Hfail).
  - split; [exact (conj eq_refl Hold)|].
    exact (proj2 (proj2 (prepare_stores_then_releases
                           (H := header) (E := Halfway.engine)
                           1 2 Scenario.insertion (after Scenario.compiled)
                           (mkState 4 [1] [3; 2] 1 "not an error")
                           (mkState 4 [1] [3; 2] 1 "not an error")
                           0 3 "not an error" eq_refl eq_refl))
                 eq_refl).
Defined.

Lemma failed_prepare_keeps_compiled_statement_witness :
  let conn := Main.m_db (object Scenario.connected) in
  let old := Main.m_stmt (object Scenario.compiled) in
  let w := after Scenario.compiled in
  let bad := Scenario.garbled in
  (fst (respond (sqlite3_prepare_v2 conn bad (int_of_size bad)) w)
   = (SQLITE_ERROR, nullptr) /\
   SQLITE_ERROR <> SQLITE_OK /\ nullptr <> old) /\
  let r := invoke (Main.prepare {| Main.m_db := conn |} bad)
                  {| Main.m_stmt := old |} w in
  let r' := invoke (Legacy.prepare {| Legacy.m_db := conn |} bad)
                   {| Legacy.m_stmt := old |} w in
  (Main.m_stmt (object r) = old /\
   filter (is_finalize_of old) (calls r) = []) /\
  (Legacy.m_stmt (object r') = old /\
   filter (is_finalize_of old) (calls r') = []).
Proof.
  cbv zeta.
  assert (Hfail : SQLITE_ERROR <> SQLITE_OK) by discriminate.
  assert (Hfresh : nullptr <> 2) by discriminate.
  split; [repeat split; assumption|].
  exact (failed_prepare_keeps_compiled_statement
           (E := engine) 1 2 Scenario.garbled (after Scenario.compiled) _
           SQLITE_ERROR nullptr eq_refl Hfail Hfresh).
Defined.

Lemma reset_and_lastRowId_run_on_absent_handle_witness :
  let w := Mock.fresh in
  let r := invoke Main.lastRowId Main.Connection_new w in
  let r' := invoke Main.reset Main.Statement_new w in
  fst (respond (sqlite3_reset nullptr) w) = SQLITE_OK /\
  (calls r = [sqlite3_last_insert_rowid nullptr] /\ returned r = Normal 1) /\
  (returned r' = Normal tt /\ calls r' = [sqlite3_reset nullptr]).
Proof.
  cbv zeta.
  destruct (reset_and_lastRowId_run_on_absent_handle (E := engine) Mock.fresh)
    as [Hrowid (_ & _ & Hreset)].
  split; [reflexivity|].
  split; [exact Hrowid | exact (Hreset eq_refl)].
Defined.

(** *** The further properties *)

Lemma execute_translates_native_result_witness :
  let db := Main.m_db (object Scenario.connected) in
  let w := after Scenario.connected in
  let failed := mkState 2 [1] [] 1 "syntax error" in
  (db <> nullptr /\
   respond (sqlite3_exec db Scenario.creation) w = (SQLITE_OK, w) /\
   respond (sqlite3_exec db Scenario.garbled) w = (SQLITE_ERROR, failed) /\
   respond (sqlite3_errmsg db) failed = ("syntax error", failed) /\
   SQLITE_ERROR <> SQLITE_OK) /\
  ((returned (invoke (Main.execute Scenario.creation) {| Main.m_db := db |} w)
    = Normal tt /\
    calls (invoke (Main.execute Scenario.creation) {| Main.m_db := db |} w)
    = [sqlite3_exec db Scenario.creation]) /\
   (returned (invoke (Legacy.execute Scenario.creation)
                     {| Legacy.m_db := db |} w)
    = Normal tt /\
    calls (invoke (Legacy.execute Scenario.creation)
                  {| Legacy.m_db := db |} w)
    = [sqlite3_exec db Scenario.creation])) /\
  ((returned (invoke (Main.execute Scenario.garbled) {| Main.m_db := db |} w)
    = Thrown {| Main.errorCode := SQLITE_ERROR;
                Main.errorMessage := "syntax error" |} /\
    calls (invoke (Main.execute Scenario.garbled) {| Main.m_db := db |} w)
    = [sqlite3_exec db Scenario.garbled; sqlite3_errmsg db]) /\
   (returned (invoke (Legacy.execute Scenario.garbled)
                     {| Legacy.m_db := db |} w)
    = Thrown {| Legacy.error := SQLITE_ERROR;
                Legacy.message := "syntax error" |} /\
    calls (invoke (Legacy.execute Scenario.garbled)
                  {| Legacy.m_db := db |} w)
    = [sqlite3_exec db Scenario.garbled; sqlite3_errmsg db])).
Proof.
  cbv zeta.
  assert (Hdb : 1 <> nullptr) by discriminate.
  assert (Hfail : SQLITE_ERROR <> SQLITE_OK) by discriminate.
  split; [repeat split; assumption|]. split.
  - exact (proj1 (execute_translates_native_result
                    (E := engine) 1 Scenario.creation
                    (after Scenario.connected) _ _ SQLITE_OK "not an error"
                    Hdb eq_refl eq_refl) eq_refl).
  - exact (proj2 (execute_translates_native_result
                    (E := engine) 1 Scenario.garbled
                    (after Scenario.connected) _ _ SQLITE_ERROR "syntax error"
                    Hdb eq_refl eq_refl) Hfail).
Defined.

Lemma transaction_helpers_send_control_statements_witness :
  let db := Main.m_db (object Scenario.connected) in
  let c := {| Main.m_db := db |} in
  let w := after Scenario.connected in
  db <> nullptr /\
  (hd_error (calls (invoke Main.beginTransaction c w))
   = Some (sqlite3_exec db "BEGIN") /\
   (returned (invoke Main.beginTransaction c w) = Normal tt <->
    fst (respond (sqlite3_exec db "BEGIN") w) = SQLITE_OK)) /\
  (hd_error (calls (invoke Main.rollbackTransaction c w))
   = Some (sqlite3_exec db "ROLLBACK") /\
   (returned (invoke Main.rollbackTransaction c w) = Normal tt <->
    fst (respond (sqlite3_exec db "ROLLBACK") w) = SQLITE_OK)) /\
  (hd_error (calls (invoke Main.commitTransaction c w))
   = Some (sqlite3_exec db "COMMIT") /\
   (returned (invoke Main.commitTransaction c w) = Normal tt <->
    fst (respond (sqlite3_exec db "COMMIT") w) = SQLITE_OK)).
Proof.
  cbv zeta.
  assert (Hdb : 1 <> nullptr) by discriminate.
  split; [exact Hdb|].
  exact (transaction_helpers_send_control_statements
           (E := engine) 1 (after Scenario.connected) Hdb).
Defined.

Lemma successful_open_replaces_session_witness :
  let db := Main.m_db (object Scenario.connected) in
  let w := after Scenario.connected in
  fst (respond (sqlite3_open ":memory:") w) = (SQLITE_OK, 2) /\
  let r := invoke (Main.open ":memory:") {| Main.m_db := db |} w in
  let r' := invoke (Legacy.open ":memory:") {| Legacy.m_db := db |} w in
  (returned r = Normal tt /\
   Main.m_db (object r) = 2 /\
   calls r = [sqlite3_open ":memory:"; sqlite3_close db]) /\
  (returned r' = Normal tt /\
   Legacy.m_db (object r') = 2 /\
   calls r' = [sqlite3_open ":memory:"; sqlite3_close db]).
Proof.
  cbv zeta. split; [reflexivity|].
  exact (successful_open_replaces_session
           (E := engine) 1 ":memory:" (after Scenario.connected) _ 2 eq_refl).
Defined.

Lemma createInMemory_opens_memory_database_witness :
  fst (respond (sqlite3_open ":memory:") Mock.fresh) = (SQLITE_OK, 1) /\
  let r := invoke Main.createInMemory Main.Connection_new Mock.fresh in
  let r' := invoke Legacy.createInMemory Legacy.Connection_new Mock.fresh in
  (hd_error (calls r) = Some (sqlite3_open ":memory:") /\
   returned r = Normal tt /\ Main.m_db (object r) = 1) /\
  (hd_error (calls r') = Some (sqlite3_open ":memory:") /\
   returned r' = Normal tt /\ Legacy.m_db (object r') = 1).
Proof.
  cbv zeta. split; [reflexivity|].
  destruct (createInMemory_opens_memory_database
              (H := header) (E := engine) nullptr Mock.fresh
              (mkState 2 [1] [] 1 "not an error") 0 1 eq_refl)
    as [(Hfirst & Hok & _) (Hfirst' & Hok' & _)].
  split; (split; [assumption | auto]).
Defined.

Lemma bind_translates_native_result_witness :
  let stmt := Main.m_stmt (object Scenario.compiled) in
  let w := after Scenario.compiled in
  (stmt <> nullptr /\ 0 <= 0 < INT_MAX /\
   fst (respond (sqlite3_bind_int stmt (0 + 1) 7) w) = SQLITE_OK /\
   fst (respond (sqlite3_bind_int stmt 0 7) w) = SQLITE_OK) /\
  (returned (invoke (Main.bind_int 0 7) {| Main.m_stmt := stmt |} w)
   = Normal tt /\
   calls (invoke (Main.bind_int 0 7) {| Main.m_stmt := stmt |} w)
   = [sqlite3_bind_int stmt (0 + 1) 7]) /\
  (returned (invoke (Legacy.bind_int 0 7) {| Legacy.m_stmt := stmt |} w)
   = Normal tt /\
   calls (invoke (Legacy.bind_int 0 7) {| Legacy.m_stmt := stmt |} w)
   = [sqlite3_bind_int stmt 0 7]).
Proof.
  cbv zeta.
  assert (Hs : 2 <> nullptr) by discriminate.
  assert (Hi : 0 <= 0 < INT_MAX) by (unfold INT_MAX; lia).
  split; [exact (conj Hs (conj Hi (conj eq_refl eq_refl)))|].
  destruct (bind_translates_native_result
              (H := header) (E := engine) 2 0 7 8 "alice"
              (after Scenario.compiled) Hs Hi)
    as [([Hint _] & _ & _) ([Hint' _] & _)].
  split; [exact (Hint eq_refl) | exact (Hint' eq_refl)].
Defined.

Lemma getBlob_returns_prefix_of_buffer_witness :
  let stmt := Main.m_stmt (object Scenario.on_row) in
  let w := after Scenario.on_row in
  (respond (sqlite3_column_bytes stmt 1) w = (5, w) /\
   respond (sqlite3_column_blob stmt 1) w = (Some "alice", w)) /\
  let r := invoke (Main.getBlob 1) {| Main.m_stmt := stmt |} w in
  let fits := 0 <= 5 <= Z.of_nat (String.length "alice") in
  (fits <-> exists bytes, returned r = Normal bytes) /\
  (~ fits <-> returned r = Undefined) /\
  (forall bytes,
     returned r = Normal bytes ->
     prefix bytes "alice" = true /\ Z.of_nat (String.length bytes) = 5).
Proof.
  cbv zeta. split; [split; reflexivity|].
  exact (getBlob_returns_prefix_of_buffer
           (E := engine) 2 1 (after Scenario.on_row) _ _ 5 "alice"
           eq_refl eq_refl).
Defined.

Lemma text_length_handed_to_engine_witness :
  let conn := Main.m_db (object Scenario.connected) in
  let stmt := Main.m_stmt (object Scenario.compiled) in
  let w := after Scenario.compiled in
  (Z.of_nat (String.length Scenario.insertion) <= INT_MAX /\
   Z.of_nat (String.length "alice") <= INT_MAX /\
   stmt <> nullptr /\ 0 <= 0 < INT_MAX) /\
  (hd_error (calls (invoke (Main.prepare {| Main.m_db := conn |}
                                         Scenario.insertion)
                           {| Main.m_stmt := stmt |} w))
   = Some (sqlite3_prepare_v2 conn Scenario.insertion 31) /\
   hd_error (calls (invoke (Main.bind_string 0 "alice")
                           {| Main.m_stmt := stmt |} w))
   = Some (sqlite3_bind_text stmt (0 + 1) "alice" 5 SQLITE_TRANSIENT)) /\
  (hd_error (calls (invoke (Legacy.prepare {| Legacy.m_db := conn |}
                                           Scenario.insertion)
                           {| Legacy.m_stmt := stmt |} w))
   = Some (sqlite3_prepare_v2 conn Scenario.insertion 31) /\
   hd_error (calls (invoke (Legacy.bind_string 0 "alice")
                           {| Legacy.m_stmt := stmt |} w))
   = Some (sqlite3_bind_text stmt 0 "alice" 5 SQLITE_TRANSIENT)).
Proof.
  cbv zeta.
  assert (Hsql : Z.of_nat (String.length Scenario.insertion) <= INT_MAX)
    by (unfold INT_MAX; cbn; lia).
  assert (Htext : Z.of_nat (String.length "alice") <= INT_MAX)
    by (unfold INT_MAX; cbn; lia).
  assert (Hs : 2 <> nullptr) by discriminate.
  assert (Hi : 0 <= 0 < INT_MAX) by (unfold INT_MAX; lia).
  split; [exact (conj Hsql (conj Htext (conj Hs Hi)))|].
  exact (text_length_handed_to_engine
           (H := header) (E := engine) 1 2 2 0 Scenario.insertion "alice"
           (after Scenario.compiled) Hsql Htext Hs Hi).
Defined.

Example lives_on_the_small_engine :
  let c := lifetime (map Usage.connection_call Lives.connection_calls)
                    Main.Connection_delete Main.Connection_new in
  let s := lifetime (map Usage.statement_call Lives.statement_calls)
                    Main.Statement_delete Main.Statement_new in
  flat_map session_opened (trace c Mock.fresh) = [1; 2; 3] /\
  flat_map session_closed (trace c Mock.fresh) = [1; 2; 3] /\
  flat_map statement_compiled (trace s (after Scenario.connected)) = [2; 3] /\
  flat_map statement_finalized (trace s (after Scenario.connected)) = [2; 3].
Proof. now repeat split. Qed.

Lemma connection_lifetime_closes_what_it_opened_witness :
  let life := lifetime (map Usage.connection_call Lives.connection_calls)
                       Main.Connection_delete Main.Connection_new in
  let w := Mock.fresh in
  fst (yield (exec life w)) = true /\
  Permutation (flat_map session_closed (trace life w))
              (flat_map session_opened (trace life w)) /\
  (NoDup (flat_map session_opened (trace life w)) ->
   NoDup (flat_map session_closed (trace life w))).
Proof.
  cbv zeta. split; [reflexivity|].
  exact (connection_lifetime_closes_what_it_opened
           (H := header) (E := engine) Lives.connection_calls Mock.fresh
           eq_refl).
Defined.

Lemma statement_lifetime_finalizes_what_it_compiled_witness :
  let life := lifetime (map Usage.statement_call Lives.statement_calls)
                       Main.Statement_delete Main.Statement_new in
  let w := after Scenario.connected in
  fst (yield (exec life w)) = true /\
  Permutation (flat_map statement_finalized (trace life w))
              (flat_map statement_compiled (trace life w)) /\
  (NoDup (flat_map statement_compiled (trace life w)) ->
   NoDup (flat_map statement_finalized (trace life w))).
Proof.
  cbv zeta. split; [reflexivity|].
  exact (statement_lifetime_finalizes_what_it_compiled
           (H := header) (E := engine) Lives.statement_calls
           (after Scenario.connected) eq_refl).
Defined.

Lemma legacy_failed_open_leaves_handle_as_it_was_witness :
  let w := Mock.fresh in
  (respond (sqlite3_open Scenario.missing) w
   = ((SQLITE_CANTOPEN, 1),
      mkState 2 [1] [] 1 "unable to open database file") /\
   SQLITE_CANTOPEN <> SQLITE_OK) /\
  let r := invoke (Legacy.open Scenario.missing) Legacy.Connection_new w in
  ((exists msg,
      returned r =
      Thrown {| Legacy.error := SQLITE_CANTOPEN; Legacy.message := msg |}) /\
   Legacy.m_db (object r) = nullptr) /\
  (respond (sqlite3_open ":memory:") (after r)
   = ((SQLITE_OK, 2), mkState 3 [2] [] 1 "not an error")) /\
  let r' := invoke (Legacy.open ":memory:") (object r) (after r) in
  returned r' = Normal tt /\ Legacy.m_db (object r') = 2.
Proof.
  cbv zeta.
  assert (Hfail : SQLITE_CANTOPEN <> SQLITE_OK) by discriminate.
  destruct (legacy_failed_open_leaves_handle_as_it_was
              (E := engine)
              nullptr Scenario.missing Mock.fresh _ SQLITE_CANTOPEN 1
              eq_refl Hfail)
    as (Hthrow & Hobject & Hnext).
  split; [split; [reflexivity | exact Hfail]|].
  split; [split; assumption|].
  split; [reflexivity|].
  exact (Hnext ":memory:" 2 _ eq_refl).
Defined.
